(** * Tourism agent: query interpretation and orchestration

    A shallow embedding of [agents/parent_agent.py], [agents/places_agent.py],
    [agents/weather_agent.py] and [utils/api_helpers.py], followed by the
    properties of the specification that concern them.

    Python [str] values are lists of characters; a character is a code point
    in U+0000..U+00FF, classified as Python classifies it. *)

From Stdlib Require Import List Bool Arith ZArith NArith Lia.
From Stdlib Require Import Ascii String DecimalString.
Import ListNotations.

Local Open Scope list_scope.

(** ** Python strings *)

Definition str := list ascii.

Definition py (s : string) : str := list_ascii_of_string s.

Definition code (c : ascii) : N := N_of_ascii c.

Definition in_range (lo hi : N) (c : ascii) : bool :=
  ((lo <=? code c) && (code c <=? hi))%N.

(** [str.isspace] on one character; also what [str.split], [str.strip] and
    the pattern escape [\s] take as whitespace. *)
Definition isspace (c : ascii) : bool :=
  in_range 9 13 c || in_range 28 32 c || in_range 133 133 c || in_range 160 160 c.

(** [str.isupper] on one character. *)
Definition isupper (c : ascii) : bool :=
  in_range 65 90 c || in_range 192 214 c || in_range 216 222 c.

Definition lower_char (c : ascii) : ascii :=
  if isupper c then ascii_of_N (code c + 32) else c.

(** [str.lower] *)
Definition lower (s : str) : str := map lower_char s.

Fixpoint lstrip (s : str) : str :=
  match s with
  | c :: s' => if isspace c then lstrip s' else s
  | [] => []
  end.

Definition rstrip (s : str) : str := rev (lstrip (rev s)).

(** [str.strip] without argument *)
Definition strip (s : str) : str := rstrip (lstrip s).

Definition str_eqb (a b : str) : bool :=
  if list_eq_dec ascii_dec a b then true else false.

(** [x in xs] for a list of strings *)
Definition str_in (x : str) (xs : list str) : bool := existsb (str_eqb x) xs.

(** [s.startswith(p)], returning what follows the prefix *)
Fixpoint strip_prefix (p s : str) : option str :=
  match p, s with
  | [], _ => Some s
  | a :: p', b :: s' => if Ascii.eqb a b then strip_prefix p' s' else None
  | _ :: _, [] => None
  end.

(** [needle in hay] for strings *)
Fixpoint contains (needle hay : str) : bool :=
  match strip_prefix needle hay with
  | Some _ => true
  | None => match hay with
            | [] => false
            | _ :: hay' => contains needle hay'
            end
  end.

(** [str.split] without argument: the maximal runs of non-whitespace.
    [cur] holds the characters of the current run, last one first. *)
Fixpoint split_from (cur : str) (s : str) : list str :=
  match s with
  | [] => match cur with [] => [] | _ => [rev cur] end
  | c :: s' =>
      if isspace c
      then match cur with
           | [] => split_from [] s'
           | _ => rev cur :: split_from [] s'
           end
      else split_from (c :: cur) s'
  end.

Definition split (s : str) : list str := split_from [] s.

(** [sep.join(parts)] *)
Fixpoint join (sep : str) (parts : list str) : str :=
  match parts with
  | [] => []
  | [p] => p
  | p :: rest => p ++ sep ++ join sep rest
  end.

(** ** The fragment of [re] used by [extract_location] *)

Module Re.

Inductive greed := Greedy | Lazy.

Inductive regex :=
| Lit (l : str)                      (* a literal text *)
| Cls (p : ascii -> bool)            (* a character class *)
| Alt (a b : regex)                  (* a|b, the left branch tried first *)
| Seq (a b : regex)
| Plus (g : greed) (p : ascii -> bool) (* class+ and class+? *)
| Group (a : regex)                  (* the capturing group *)
| Eos.                               (* $ *)

(** One or more characters of class [p], then the continuation; the greedy
    loop tries the longest run first, the lazy one the shortest. *)
Fixpoint plus_loop {T} (g : greed) (p : ascii -> bool) (s : str)
         (k : str -> option T) : option T :=
  match s with
  | [] => None
  | c :: s' =>
      if p c then
        match g with
        | Greedy => match plus_loop g p s' k with
                    | Some v => Some v
                    | None => k s'
                    end
        | Lazy => match k s' with
                  | Some v => Some v
                  | None => plus_loop g p s' k
                  end
        end
      else None
  end.

(** Backtracking matcher in continuation-passing style: [s] is the text not
    yet consumed, [cap] the text of group 1 when it has been closed. *)
Fixpoint rmatch {T} (r : regex) (s : str) (cap : option str)
         (k : str -> option str -> option T) : option T :=
  match r with
  | Lit l => match strip_prefix l s with
             | Some s' => k s' cap
             | None => None
             end
  | Cls p => match s with
             | c :: s' => if p c then k s' cap else None
             | [] => None
             end
  | Alt a b => match rmatch a s cap k with
               | Some v => Some v
               | None => rmatch b s cap k
               end
  | Seq a b => rmatch a s cap (fun s' cap' => rmatch b s' cap' k)
  | Plus g p => plus_loop g p s (fun s' => k s' cap)
  | Group a =>
      rmatch a s cap
        (fun s' _ => k s' (Some (firstn (List.length s - List.length s') s)))
  | Eos => match s with
           | [] => k s cap
           | [c] => if Ascii.eqb c "010"%char then k s cap else None
           | _ => None
           end
  end.

(** The match at the start of [s], as the text of group 1.  In both patterns
    below the group takes part in every match. *)
Definition match_here (r : regex) (s : str) : option str :=
  rmatch r s None (fun _ cap => cap).

(** [re.search(r, s)] followed by [.group(1)]: the leftmost match. *)
Fixpoint search (r : regex) (s : str) : option str :=
  match match_here r s with
  | Some g => Some g
  | None => match s with
            | [] => None
            | _ :: s' => search r s'
            end
  end.

End Re.

Import Re.

(** ** parent_agent.py: intent analysis and location extraction *)

Definition weather_keywords : list str :=
  map py ["weather"; "temperature"; "rain"; "forecast";
          "hot"; "cold"; "climate"; "temp"]%string.

Definition places_keywords : list str :=
  map py ["visit"; "places"; "attractions"; "see"; "tour";
          "tourist"; "sights"; "destination"; "spots"; "things to do"]%string.

Record Intent := { wants_weather : bool; wants_places : bool }.

(** [any(keyword in text for keyword in keywords)] *)
Definition any_keyword (keywords : list str) (text : str) : bool :=
  existsb (fun keyword => contains keyword text) keywords.

Definition analyze_intent (user_input : str) : Intent :=
  let user_input_lower := lower user_input in
  let wants_weather := any_keyword weather_keywords user_input_lower in
  let wants_places := any_keyword places_keywords user_input_lower in
  if negb wants_weather && negb wants_places
  then {| wants_weather := wants_weather; wants_places := true |}
  else {| wants_weather := wants_weather; wants_places := wants_places |}.

(** No keyword of either vocabulary occurs in the lowered text. *)
Definition no_keyword (user_input : str) : Prop :=
  forall keyword,
    In keyword (weather_keywords ++ places_keywords) ->
    contains keyword (lower user_input) = false.

Definition upper_AZ (c : ascii) : bool := in_range 65 90 c.
Definition lower_az (c : ascii) : bool := in_range 97 122 c.

(** [[a-zA-Z\s]] *)
Definition name_char (c : ascii) : bool := lower_az c || upper_AZ c || isspace c.

Fixpoint alts (rs : list regex) (last : regex) : regex :=
  match rs with
  | [] => last
  | r :: rs' => Alt r (alts rs' last)
  end.

Definition lit (s : string) : regex := Lit (py s).

(** [([A-Z][a-zA-Z\s]+?)] *)
Definition place_group : regex := Group (Seq (Cls upper_AZ) (Plus Lazy name_char)).

(** [(?:\,|\.|$|\s+let|\s+what|\s+and)] *)
Definition terminator : regex :=
  alts [lit ","; lit "."; Eos;
        Seq (Plus Greedy isspace) (lit "let");
        Seq (Plus Greedy isspace) (lit "what")]
       (Seq (Plus Greedy isspace) (lit "and")).

Definition phrase_pattern (phrases : regex) : regex :=
  Seq phrases (Seq (Plus Greedy isspace) (Seq place_group terminator)).

Definition patterns : list regex :=
  [ phrase_pattern
      (alts [lit "going to"; lit "visit"; lit "trip to"] (lit "travel to"));
    phrase_pattern (alts [lit "in"] (lit "at")) ].

Definition stopwords : list str :=
  map py ["i"; "i'm"; "let's"; "what"; "is"; "the"; "and"]%string.

(** [word[0].isupper()]; [split] yields no empty word. *)
Definition starts_upper (word : str) : bool :=
  match word with
  | c :: _ => isupper c
  | [] => false
  end.

(** The inner loop: the words that follow, while they start in upper case. *)
Fixpoint upper_run (words : list str) : list str :=
  match words with
  | w :: rest => if starts_upper w then w :: upper_run rest else []
  | [] => []
  end.

(** The loop over [patterns]. *)
Fixpoint try_patterns (ps : list regex) (user_input : str) : option str :=
  match ps with
  | [] => None
  | pattern :: ps' =>
      match search pattern user_input with
      | Some g =>
          let location := strip g in
          if 2 <? List.length location then Some location
          else try_patterns ps' user_input
      | None => try_patterns ps' user_input
      end
  end.

(** The loop over [enumerate(words)]. *)
Fixpoint scan_words (words : list str) : option str :=
  match words with
  | [] => None
  | word :: rest =>
      if starts_upper word && negb (str_in (lower word) stopwords) then
        let location_parts := word :: upper_run rest in
        let location := join (py " ") location_parts in
        if 2 <? List.length location then Some location else scan_words rest
      else scan_words rest
  end.

Definition extract_location (user_input : str) : option str :=
  if List.length (strip user_input) <? 5 then None
  else match try_patterns patterns user_input with
       | Some location => Some location
       | None => scan_words (split user_input)
       end.

(** No token of the text starts with an uppercase letter. *)
Definition no_capitalized_token (user_input : str) : Prop :=
  forall word, In word (split user_input) -> starts_upper word = false.

(** [consumes r s s']: [r] can match a prefix of [s] and leave [s']. *)
Fixpoint consumes (r : regex) (s s' : str) : Prop :=
  match r with
  | Lit l => s = l ++ s'
  | Cls p => exists c, s = c :: s' /\ p c = true
  | Alt a b => consumes a s s' \/ consumes b s s'
  | Seq a b => exists m, consumes a s m /\ consumes b m s'
  | Plus _ p => exists cs, cs <> [] /\ forallb p cs = true /\ s = cs ++ s'
  | Group a => consumes a s s'
  | Eos => s' = s
  end.

(** ** weather_agent.py: the description of a weather code *)

Definition weather_codes : list (Z * string) :=
  [ (0, "Clear sky"); (1, "Mainly clear"); (2, "Partly cloudy"); (3, "Overcast");
    (45, "Foggy"); (48, "Depositing rime fog");
    (51, "Light drizzle"); (53, "Moderate drizzle"); (55, "Dense drizzle");
    (61, "Slight rain"); (63, "Moderate rain"); (65, "Heavy rain");
    (71, "Slight snow"); (73, "Moderate snow"); (75, "Heavy snow");
    (77, "Snow grains");
    (80, "Slight rain showers"); (81, "Moderate rain showers");
    (82, "Violent rain showers");
    (85, "Slight snow showers"); (86, "Heavy snow showers");
    (95, "Thunderstorm"); (96, "Thunderstorm with slight hail");
    (99, "Thunderstorm with heavy hail") ]%Z%string.

(** [table.get(key, default)] *)
Fixpoint table_get (table : list (Z * string)) (key : Z) (default : string)
  : string :=
  match table with
  | [] => default
  | (k, v) :: rest => if (k =? key)%Z then v else table_get rest key default
  end.

Definition get_weather_description (weather_code : Z) : string :=
  table_get weather_codes weather_code "Unknown".

(** ** Python values and exceptions *)

Inductive exn :=
| AttributeError | TypeError | KeyError | IndexError | ValueError.

(** A Python computation: it returns a value or raises. *)
Inductive Py (A : Type) :=
| Ret (a : A)
| Raise (e : exn).

Arguments Ret {A} a.
Arguments Raise {A} e.

Definition bind {A B} (c : Py A) (k : A -> Py B) : Py B :=
  match c with
  | Ret a => k a
  | Raise e => Raise e
  end.

Notation "x <- c ;; k" := (bind c (fun x => k))
  (at level 61, c at next level, right associativity).

Set Warnings "-register-all".
Set Implicit Arguments.

Section Agents.

(** The numbers a decoded JSON document holds (Python [int] and [float]),
    their truth value, and the builtin [float] on a decoded value. *)
Variable number : Type.
Variable num_truthy : number -> bool.

(** What [json.loads] yields; a dict is held as the list of its items, and
    [dict_get] takes the first item under a key. *)
Inductive json :=
| JNull
| JBool (b : bool)
| JNum (n : number)
| JStr (s : str)
| JList (l : list json)
| JObj (items : list (str * json)).

Variable py_float : json -> Py number.

(** [str.title], a builtin whose result can leave U+0000..U+00FF. *)
Variable title : str -> str.

(** [bool(v)] *)
Definition truthy (v : json) : bool :=
  match v with
  | JNull => false
  | JBool b => b
  | JNum n => num_truthy n
  | JStr s => match s with [] => false | _ => true end
  | JList l => match l with [] => false | _ => true end
  | JObj items => match items with [] => false | _ => true end
  end.

(** [a or b] *)
Definition py_or (a b : json) : json := if truthy a then a else b.

Fixpoint dict_get (key : str) (items : list (str * json)) : option json :=
  match items with
  | [] => None
  | (k, v) :: rest => if str_eqb k key then Some v else dict_get key rest
  end.

(** [d.get(key, default)] inside an object known to be a dict *)
Definition tag_get (items : list (str * json)) (key : string) (default : json)
  : json :=
  match dict_get (py key) items with
  | Some v => v
  | None => default
  end.

(** [v.get(key, default)] on any value, returned as a dict when it is one *)
Definition as_dict (v : json) : Py (list (str * json)) :=
  match v with
  | JObj items => Ret items
  | _ => Raise AttributeError
  end.

(** [v[key]] for a string key *)
Definition subscript (v : json) (key : string) : Py json :=
  match v with
  | JObj items => match dict_get (py key) items with
                  | Some x => Ret x
                  | None => Raise KeyError
                  end
  | _ => Raise TypeError
  end.

(** [v[0]] *)
Definition first_item (v : json) : Py json :=
  match v with
  | JList (x :: _) => Ret x
  | JList [] => Raise IndexError
  | JStr (c :: _) => Ret (JStr [c])
  | JStr [] => Raise IndexError
  | JObj _ => Raise KeyError
  | _ => Raise TypeError
  end.

(** [len(v)] *)
Definition py_len (v : json) : Py nat :=
  match v with
  | JList l => Ret (List.length l)
  | JStr s => Ret (List.length s)
  | JObj items => Ret (List.length items)
  | _ => Raise TypeError
  end.

(** [l[:stop]] on a sequence *)
Definition slice_to {A} (stop : Z) (l : list A) : list A :=
  if (0 <=? stop)%Z then firstn (Z.to_nat stop) l
  else firstn (List.length l - Z.to_nat (- stop)) l.

(** The items that [for element in v[:stop]] goes through *)
Definition iter_slice (v : json) (stop : Z) : Py (list json) :=
  match v with
  | JList l => Ret (slice_to stop l)
  | JStr s => Ret (map (fun c => JStr [c]) (slice_to stop s))
  | _ => Raise TypeError
  end.

(** ** utils/api_helpers.py *)

(** What one attempt of [requests.get] / [requests.post] followed by
    [raise_for_status] and [response.json()] does. *)
Inductive http_outcome :=
| BodyJson (data : json)        (* a 2xx answer whose body is JSON *)
| BodyText (text : str)         (* a 2xx answer, [response.json()] fails *)
| Timeout
| ConnectionError
| HTTPError (status_code : Z)
| OtherException (message : str).

(** [method.upper()] is ['GET'], ['POST'] or something else. *)
Inductive http_method := GET | POST | Unsupported (method : str).

(** The envelope: [{'success': True, 'data': ...}] or
    [{'success': False, 'error': ...}]. *)
Inductive response :=
| Success (data : json)
| Failure (error : str).

Definition str_of_int (z : Z) : str := py (NilZero.string_of_int (Z.to_int z)).

(** The loop [for attempt in range(max_retries)], from [attempt] on with
    [remaining] iterations left; [send attempt] is what the upstream does. *)
Fixpoint request_loop (method : http_method) (send : nat -> http_outcome)
         (max_retries attempt remaining : nat) : response :=
  match remaining with
  | O => Failure (py "Maximum retry attempts reached")
  | S remaining' =>
      match method with
      | Unsupported m => Failure (py "Unsupported HTTP method: " ++ m)
      | _ =>
          match send attempt with
          | BodyJson data => Success data
          | BodyText text => Success (JStr text)
          | Timeout =>
              if attempt <? max_retries - 1
              then request_loop method send max_retries (S attempt) remaining'
              else Failure (py "Request timed out. Please try again.")
          | ConnectionError =>
              if attempt <? max_retries - 1
              then request_loop method send max_retries (S attempt) remaining'
              else Failure (py "Could not connect to the server. Please check your internet connection.")
          | HTTPError status_code =>
              Failure (py "HTTP error occurred: " ++ str_of_int status_code)
          | OtherException message =>
              Failure (py "An unexpected error occurred: " ++ message)
          end
      end
  end.

Definition make_api_request (method : http_method) (send : nat -> http_outcome)
           (max_retries : nat) : response :=
  request_loop method send max_retries 0 max_retries.

Definition default_max_retries : nat := 3.

(** ** agents/weather_agent.py *)

Record Current := {
  temperature : json;
  humidity : json;
  precipitation : json;
  weather_code : json
}.

Record Forecast := {
  max_temps : json;
  min_temps : json;
  precipitation_probability : json;
  dates : json
}.

(** The dict returned by [get_weather]: ['success'] is [True] with the
    data, or [False] with an error text. *)
Inductive weather_result :=
| WeatherOk (current : Current) (forecast : Forecast) (timezone : json)
| WeatherErr (error : str).

(** The upstream services: what each attempt of a request does. *)
Record World := {
  nominatim : str -> nat -> http_outcome;
  open_meteo : number -> number -> nat -> http_outcome;
  overpass : number -> number -> Z -> Z -> nat -> http_outcome
}.

Definition parse_weather (response : response) : Py weather_result :=
  match response with
  | Failure error => Ret (WeatherErr error)
  | Success data =>
      data_items <- as_dict data ;;
      let current := tag_get data_items "current" (JObj []) in
      let daily := tag_get data_items "daily" (JObj []) in
      current_items <- as_dict current ;;
      daily_items <- as_dict daily ;;
      Ret (WeatherOk
             {| temperature := tag_get current_items "temperature_2m" JNull;
                humidity := tag_get current_items "relative_humidity_2m" JNull;
                precipitation := tag_get current_items "precipitation" JNull;
                weather_code := tag_get current_items "weather_code" JNull |}
             {| max_temps := tag_get daily_items "temperature_2m_max" (JList []);
                min_temps := tag_get daily_items "temperature_2m_min" (JList []);
                precipitation_probability :=
                  tag_get daily_items "precipitation_probability_max" (JList []);
                dates := tag_get daily_items "time" (JList []) |}
             (tag_get data_items "timezone" (JStr (py "UTC"))))
  end.

Definition get_weather (w : World) (latitude longitude : number)
  : Py weather_result :=
  let response :=
    make_api_request GET (open_meteo w latitude longitude) default_max_retries in
  parse_weather response.

(** ** agents/places_agent.py *)

Record Coords := { lat : number; lon : number }.

Definition parse_coordinates (response : response) : Py (option Coords) :=
  match response with
  | Failure _ => Ret None
  | Success data =>
      if negb (truthy data) then Ret None
      else
        n <- py_len data ;;
        if 0 <? n then
          first <- first_item data ;;
          lat_text <- subscript first "lat" ;;
          lat_value <- py_float lat_text ;;
          first' <- first_item data ;;
          lon_text <- subscript first' "lon" ;;
          lon_value <- py_float lon_text ;;
          Ret (Some {| lat := lat_value; lon := lon_value |})
        else Ret None
  end.

Definition get_coordinates (w : World) (place_name : str) : Py (option Coords) :=
  let response := make_api_request GET (nominatim w place_name) default_max_retries in
  parse_coordinates response.

Record Attraction := {
  name : json;
  type : json;
  latitude : json;
  longitude : json;
  address : json;
  website : json;
  description : json
}.

(** The dict returned by [get_tourist_attractions]: a failure, the success
    without elements (no ['count'] key), or the success with the parsed list. *)
Inductive places_result :=
| PlacesErr (error : str)
| PlacesEmpty (message : str)
| PlacesFound (attractions : list Attraction) (count : nat).

(** [s.replace('_', ' ')] *)
Definition replace_underscore (s : str) : str :=
  map (fun c => if Ascii.eqb c "_"%char then " "%char else c) s.

(** [tags.get('tourism') or tags.get('historic') or tags.get('amenity', 'attraction')] *)
Definition attraction_type (tags : list (str * json)) : json :=
  py_or (tag_get tags "tourism" JNull)
        (py_or (tag_get tags "historic" JNull)
               (tag_get tags "amenity" (JStr (py "attraction")))).

(** One turn of the loop body: [None] is [continue]. *)
Definition parse_element (element : json) : Py (option Attraction) :=
  element_items <- as_dict element ;;
  tags <- as_dict (tag_get element_items "tags" (JObj [])) ;;
  let name := tag_get tags "name" (JStr []) in
  let description := tag_get tags "description" (JStr []) in
  if negb (truthy name) && negb (truthy description) then Ret None
  else
    position <-
      match dict_get (py "center") element_items with
      | Some center =>
          lat <- subscript center "lat" ;;
          lon <- subscript center "lon" ;;
          Ret (lat, lon)
      | None =>
          Ret (tag_get element_items "lat" JNull,
               tag_get element_items "lon" JNull)
      end ;;
    name' <-
      (if negb (truthy name) then
         match attraction_type tags with
         | JStr s => Ret (JStr (title (replace_underscore s)))
         | _ => Raise AttributeError
         end
       else Ret name) ;;
    Ret (Some {| name := name';
                 type := attraction_type tags;
                 latitude := fst position;
                 longitude := snd position;
                 address := py_or (tag_get tags "addr:full" JNull)
                                  (tag_get tags "addr:street" (JStr []));
                 website := tag_get tags "website" (JStr []);
                 description := description |}).

(** The loop over [elements[:limit * 2]], [attractions] being the list built
    so far. *)
Fixpoint collect (limit : Z) (elements : list json) (attractions : list Attraction)
  : Py (list Attraction) :=
  match elements with
  | [] => Ret attractions
  | element :: rest =>
      parsed <- parse_element element ;;
      match parsed with
      | None => collect limit rest attractions
      | Some attraction =>
          let attractions := attractions ++ [attraction] in
          if (limit <=? Z.of_nat (List.length attractions))%Z
          then Ret attractions
          else collect limit rest attractions
      end
  end.

Definition parse_attractions (response : response) (limit : Z) : Py places_result :=
  match response with
  | Failure error => Ret (PlacesErr error)
  | Success data =>
      data_items <- as_dict data ;;
      let elements := tag_get data_items "elements" (JList []) in
      if negb (truthy elements)
      then Ret (PlacesEmpty (py "No tourist attractions found in this area"))
      else
        candidates <- iter_slice elements (limit * 2) ;;
        attractions <- collect limit candidates [] ;;
        Ret (PlacesFound attractions (List.length attractions))
  end.

Definition get_tourist_attractions (w : World) (latitude longitude : number)
           (radius limit : Z) : Py places_result :=
  let response :=
    make_api_request POST (overpass w latitude longitude radius limit)
                     default_max_retries in
  parse_attractions response limit.

Definition default_radius : Z := 5000.
Definition default_limit : Z := 5.

(** ** agents/parent_agent.py: the orchestrator *)

Record QueryResult := {
  success : bool;
  location : option str;
  weather : option weather_result;
  places : option places_result;
  error : option str
}.

Definition no_location_error : str :=
  py "Could not identify a location in your query. Please mention a place name.".

Definition unknown_place_error (location : str) : str :=
  py "I'm sorry, I don't know this place exists: " ++ location.

(** [if intent['weather']: ...] *)
Definition weather_step (w : World) (coords : Coords) (results : QueryResult)
  : Py QueryResult :=
  weather_data <- get_weather w (lat coords) (lon coords) ;;
  match weather_data with
  | WeatherOk _ _ _ =>
      Ret {| success := success results; location := location results;
             weather := Some weather_data; places := places results;
             error := error results |}
  | WeatherErr e =>
      Ret {| success := success results; location := location results;
             weather := weather results; places := places results;
             error := Some e |}
  end.

(** [if intent['places']: ...] *)
Definition places_step (w : World) (coords : Coords) (results : QueryResult)
  : Py QueryResult :=
  places_data <- get_tourist_attractions w (lat coords) (lon coords)
                   default_radius default_limit ;;
  match places_data with
  | PlacesErr e =>
      let error' :=
        match error results with
        | Some (c :: old) => (c :: old) ++ py " Also: " ++ e
        | _ => e
        end in
      Ret {| success := success results; location := location results;
             weather := weather results; places := places results;
             error := Some error' |}
  | _ =>
      Ret {| success := success results; location := location results;
             weather := weather results; places := Some places_data;
             error := error results |}
  end.

Definition process_query (w : World) (user_input : str) : Py QueryResult :=
  match extract_location user_input with
  | None | Some [] =>
      Ret {| success := false; location := None; weather := None;
             places := None; error := Some no_location_error |}
  | Some location =>
      let intent := analyze_intent user_input in
      let results := {| success := true; location := Some location;
                        weather := None; places := None; error := None |} in
      coords <- get_coordinates w location ;;
      match coords with
      | None =>
          Ret {| success := false; location := Some location; weather := None;
                 places := None; error := Some (unknown_place_error location) |}
      | Some coords =>
          results <- (if wants_weather intent
                      then weather_step w coords results else Ret results) ;;
          (if wants_places intent
           then places_step w coords results else Ret results)
      end
  end.

(** [len(v)] when [v] is a list *)
Definition array_len (v : json) : option nat :=
  match v with
  | JList l => Some (List.length l)
  | _ => None
  end.

(** The four forecast arrays have one and the same length [n]. *)
Definition forecast_aligned (n : nat) (fc : Forecast) : Prop :=
  array_len (dates fc) = Some n
  /\ array_len (max_temps fc) = Some n
  /\ array_len (min_temps fc) = Some n
  /\ array_len (precipitation_probability fc) = Some n.

(** [daily.get(key, [])] *)
Definition daily_array (daily : list (str * json)) (key : string)
  : json :=
  tag_get daily key (JList []).

(** The tags under [key], with the default of the source. *)
Definition name_tag (tags : list (str * json)) : json :=
  tag_get tags "name" (JStr []).

Definition description_tag (tags : list (str * json)) : json :=
  tag_get tags "description" (JStr []).






End Agents.

Unset Implicit Arguments.

Arguments JNull {number}.
Arguments JBool {number} b.
Arguments JStr {number} s.
Arguments BodyText {number} text.
Arguments Timeout {number}.
Arguments ConnectionError {number}.
Arguments HTTPError {number} status_code.
Arguments OtherException {number} message.
Arguments Failure {number} error.
Arguments WeatherErr {number} error.
Arguments PlacesErr {number} error.
Arguments PlacesEmpty {number} message.

(** ** Instances for concrete runs

    The builtins over whole numbers: a number is truthy when it is not zero,
    [float] reads an unsigned decimal numeral, [title] is [str.title] on the
    letters a..z and A..Z. *)

Definition whole_truthy (n : Z) : bool := negb (n =? 0)%Z.

Definition digit_value (c : ascii) : option Z :=
  if in_range 48 57 c then Some (Z.of_N (code c) - 48)%Z else None.

Fixpoint digits_value (acc : Z) (s : str) : option Z :=
  match s with
  | [] => Some acc
  | c :: s' => match digit_value c with
               | Some d => digits_value (10 * acc + d)%Z s'
               | None => None
               end
  end.

Definition whole_float (v : json Z) : Py Z :=
  match v with
  | JNum n => Ret n
  | JBool b => Ret (if b then 1 else 0)%Z
  | JStr [] => Raise ValueError
  | JStr s => match digits_value 0 s with
                | Some n => Ret n
                | None => Raise ValueError
                end
  | _ => Raise TypeError
  end.

Definition ascii_letter (c : ascii) : bool := lower_az c || upper_AZ c.

Definition ascii_upper (c : ascii) : ascii :=
  if lower_az c then ascii_of_N (code c - 32) else c.

Definition ascii_lower (c : ascii) : ascii :=
  if upper_AZ c then ascii_of_N (code c + 32) else c.

Fixpoint title_from (previous_is_cased : bool) (s : str) : str :=
  match s with
  | [] => []
  | c :: s' =>
      (if previous_is_cased then ascii_lower c else ascii_upper c)
        :: title_from (ascii_letter c) s'
  end.

Definition ascii_title (s : str) : str := title_from false s.

Definition jnum (n : Z) : json Z := JNum n.

Definition jstr (s : string) : json Z := JStr (py s).

Definition jobj (items : list (string * json Z)) : json Z :=
  JObj (map (fun kv => (py (fst kv), snd kv)) items).

Definition one_match : json Z :=
  JList [jobj [("lat", jstr "48"); ("lon", jstr "2")]%string].

Definition three_days : json Z :=
  jobj [("current", jobj [("temperature_2m", jnum 21); ("weather_code", jnum 3)]);
        ("daily",
         jobj [("time", JList [jstr "2024-05-01"; jstr "2024-05-02"; jstr "2024-05-03"]);
               ("temperature_2m_max", JList [jnum 22; jnum 23; jnum 21]);
               ("temperature_2m_min", JList [jnum 12; jnum 13; jnum 11]);
               ("precipitation_probability_max", JList [jnum 0; jnum 40; jnum 70])]);
        ("timezone", jstr "Europe/Paris")]%string.

(** A forecast answer whose [daily] object gives the dates only. *)
Definition dates_only : json Z :=
  jobj [("daily",
         jobj [("time", JList [jstr "2024-05-01"; jstr "2024-05-02"; jstr "2024-05-03"])])]%string.

Definition two_elements : json Z :=
  jobj [("elements",
         JList [jobj [("lat", jnum 48); ("lon", jnum 2);
                        ("tags", jobj [("name", jstr "Louvre"); ("tourism", jstr "museum")])];
                  jobj [("center", jobj [("lat", jnum 48); ("lon", jnum 2)]);
                        ("tags", jobj [("historic", jstr "memorial");
                                       ("description", jstr "War memorial")])]])]%string.

(** A spatial answer with one record that has a description, no name, and an
    empty amenity tag. *)
Definition empty_category : json Z :=
  jobj [("elements",
         JList [jobj [("lat", jnum 48); ("lon", jnum 2);
                        ("tags", jobj [("description", jstr "A quiet corner");
                                       ("amenity", jstr "")])]])]%string.

Definition world_of (geocoding forecast spatial : http_outcome Z) : World Z :=
  {| nominatim := fun _ _ => geocoding;
     open_meteo := fun _ _ _ => forecast;
     overpass := fun _ _ _ _ _ => spatial |}.

(** Weather answers, the spatial query is refused. *)
Definition places_down : World Z :=
  world_of (BodyJson one_match) (BodyJson three_days) (HTTPError 504).

(** The geocoder finds nothing. *)
Definition no_match : World Z :=
  world_of (BodyJson (JList [])) (BodyJson three_days) (BodyJson two_elements).

Definition all_up : World Z :=
  world_of (BodyJson one_match) (BodyJson three_days) (BodyJson two_elements).

Definition short_forecast : World Z :=
  world_of (BodyJson one_match) (BodyJson dates_only) (BodyJson two_elements).

Definition odd_record : World Z :=
  world_of (BodyJson one_match) (BodyJson three_days) (BodyJson empty_category).

Definition run_query (w : World Z) (user_input : string) : Py (QueryResult Z) :=
  process_query whole_truthy whole_float ascii_title w (py user_input).

Definition run_places (w : World Z) (limit : Z) : Py (places_result Z) :=
  get_tourist_attractions whole_truthy ascii_title w 48%Z 2%Z default_radius limit.

(** ** Vocabulary of the further properties *)

(** Some keyword of [keywords] occurs in [text]. *)
Definition occurs (keywords : list str) (text : str) : Prop :=
  exists keyword pre post, In keyword keywords /\ text = pre ++ keyword ++ post.

(** A timeout or a connection failure: what the transport client retries. *)
Definition transient {number} (o : http_outcome number) : bool :=
  match o with
  | Timeout | ConnectionError => true
  | _ => false
  end.

(** The envelope that the transport client returns when it stops at [o]. *)
Definition outcome_response {number} (o : http_outcome number) : response number :=
  match o with
  | BodyJson data => Success data
  | BodyText text => Success (JStr text)
  | Timeout => Failure (py "Request timed out. Please try again.")
  | ConnectionError =>
      Failure (py "Could not connect to the server. Please check your internet connection.")
  | HTTPError status_code =>
      Failure (py "HTTP error occurred: " ++ str_of_int status_code)
  | OtherException message =>
      Failure (py "An unexpected error occurred: " ++ message)
  end.

Definition supported (method : http_method) : Prop :=
  method = GET \/ method = POST.

(** An upstream that times out twice and then answers. *)
Definition slow_upstream (attempt : nat) : http_outcome Z :=
  match attempt with
  | 0 | 1 => Timeout
  | _ => BodyJson three_days
  end.

(** An upstream that is down. *)
Definition dead_upstream (attempt : nat) : http_outcome Z :=
  match attempt with
  | 0 => Timeout
  | _ => ConnectionError
  end.

(** A forecast body that [get_weather] can read: an object whose [current]
    and [daily] entries, where present, are objects. *)
Definition weather_body {number} (data : json number) : Prop :=
  exists items current daily,
    data = JObj items
    /\ tag_get items "current" (JObj []) = JObj current
    /\ tag_get items "daily" (JObj []) = JObj daily.

(** The records that the loop body keeps of [elements], in their order; an
    element skipped by [continue] gives none. *)
Definition kept_records {number} (num_truthy : number -> bool) (title : str -> str)
           (elements : list (json number)) : list (Attraction number) :=
  flat_map (fun element =>
              match parse_element num_truthy title element with
              | Ret (Some attraction) => [attraction]
              | _ => []
              end) elements.

(** [captures r s cap s' cap']: [r] can match a prefix of [s] and leave [s'],
    taking the text of group 1 from [cap] to [cap']. *)
Fixpoint captures (r : regex) (s : str) (cap : option str) (s' : str)
         (cap' : option str) : Prop :=
  match r with
  | Lit l => s = l ++ s' /\ cap' = cap
  | Cls p => (exists c, s = c :: s' /\ p c = true) /\ cap' = cap
  | Alt a b => captures a s cap s' cap' \/ captures b s cap s' cap'
  | Seq a b => exists m capm, captures a s cap m capm /\ captures b m capm s' cap'
  | Plus _ p => (exists cs, cs <> [] /\ forallb p cs = true /\ s = cs ++ s')
                /\ cap' = cap
  | Group a => (exists cap0, captures a s cap s' cap0)
               /\ cap' = Some (firstn (List.length s - List.length s') s)
  | Eos => s' = s /\ cap' = cap
  end.

Fixpoint has_group (r : regex) : bool :=
  match r with
  | Alt a b | Seq a b => has_group a || has_group b
  | Group _ => true
  | _ => false
  end.

(** A text without whitespace at either end. *)
Definition trimmed (s : str) : Prop := strip s = s.

(** A token: not empty, without whitespace. *)
Definition token (word : str) : Prop :=
  word <> [] /\ forall c, In c word -> isspace c = false.

(** The phrases of the first pattern. *)
Definition travel_phrases : list str :=
  map py ["going to"; "visit"; "trip to"; "travel to"]%string.

(** An upstream that follows [slow_upstream] for three attempts and would
    refuse a fourth. *)
Definition slow_then_refusing (attempt : nat) : http_outcome Z :=
  if attempt <? 3 then slow_upstream attempt else HTTPError 500.

(** A geocoder behind a portal that answers every request with a web page. *)
Definition behind_portal : World Z :=
  world_of (BodyText (py "<html>Sign in</html>")) (BodyJson three_days)
           (BodyJson two_elements).

(** [make_api_request] for any Python [int] as [max_retries]:
    [range(max_retries)] is empty when it is zero or negative, and where the
    loop body runs [max_retries] is positive, so that [attempt < max_retries - 1]
    is the comparison of [request_loop]. *)
Definition make_api_request_int {number} (method : http_method)
           (send : nat -> http_outcome number) (max_retries : Z) : response number :=
  make_api_request method send (Z.to_nat max_retries).




(** * Properties *)

(** ** Weather codes *)

Lemma table_get_default table key default :
  ~ In key (map fst table) -> table_get table key default = default.
Proof.
  induction table as [|[k v] rest IH]; simpl; intros Hnot; [reflexivity|].
  destruct (Z.eqb_spec k key) as [->|_].
  - exfalso. apply Hnot. now left.
  - apply IH. intros Hin. apply Hnot. now right.
Qed.

Lemma table_get_in table key v default :
  NoDup (map fst table) -> In (key, v) table -> table_get table key default = v.
Proof.
  induction table as [|[k v'] rest IH]; simpl; intros Hnd Hin; [contradiction|].
  inversion Hnd as [|? ? Hk Hrest]; subst.
  destruct Hin as [Heq|Hin].
  - inversion Heq; subst. now rewrite Z.eqb_refl.
  - destruct (Z.eqb_spec k key) as [->|_].
    + exfalso. apply Hk. change key with (fst (key, v)). now apply in_map.
    + now apply IH.
Qed.

Lemma weather_codes_NoDup : NoDup (map fst weather_codes).
Proof.
  simpl. repeat (constructor; [simpl; intuition discriminate|]). constructor.
Qed.

Lemma weather_codes_known code description :
  In (code, description) weather_codes -> description <> "Unknown"%string.
Proof.
  simpl. intros H.
  repeat (destruct H as [H|H]; [inversion H; subst; discriminate|]).
  contradiction.
Qed.

(** C8, as the code has it: [get_weather_description] looks the code up in a
    fixed table of 24 distinct WMO codes (not 23), gives the table's
    description for each of them, none of which is "Unknown", and gives
    "Unknown" for every other integer. *)
Theorem get_weather_description_table :
  List.length weather_codes = 24
  /\ NoDup (map fst weather_codes)
  /\ (forall code description,
        In (code, description) weather_codes ->
        get_weather_description code = description
        /\ description <> "Unknown"%string)
  /\ (forall code,
        ~ In code (map fst weather_codes) ->
        get_weather_description code = "Unknown"%string).
Proof.
  split; [reflexivity|].
  split; [exact weather_codes_NoDup|].
  split.
  - intros code description Hin. split.
    + apply table_get_in; [exact weather_codes_NoDup | exact Hin].
    + exact (weather_codes_known _ _ Hin).
  - intros code Hnot. now apply table_get_default.
Qed.

(** C8, as the specification words it, fails: no set of exactly 23 codes is
    the set of codes with a description other than "Unknown". *)
Lemma get_weather_description_not_23_codes :
  ~ exists codes : list Z,
      NoDup codes /\ List.length codes = 23
      /\ forall code, In code codes <->
                      get_weather_description code <> "Unknown"%string.
Proof.
  intros [codes [Hnd [Hlen Hiff]]].
  assert (Hincl : incl (map fst weather_codes) codes).
  { intros code Hin. apply Hiff.
    apply in_map_iff in Hin. destruct Hin as [[k v] [Hk Hin]].
    simpl in Hk. subst k.
    unfold get_weather_description.
    rewrite (table_get_in _ _ v _ weather_codes_NoDup Hin).
    exact (weather_codes_known _ _ Hin). }
  pose proof (NoDup_incl_length weather_codes_NoDup Hincl) as Hle.
  rewrite Hlen in Hle. simpl in Hle. lia.
Qed.

(** ** Intent analysis *)


Lemma any_keyword_false keywords text :
  (forall keyword, In keyword keywords -> contains keyword text = false) ->
  any_keyword keywords text = false.
Proof.
  intros H. unfold any_keyword.
  induction keywords as [|k rest IH]; simpl; [reflexivity|].
  rewrite (H k (or_introl eq_refl)). simpl.
  apply IH. intros k' Hk'. apply H. now right.
Qed.

(** C4: a text in which no weather keyword and no places keyword occurs,
    case-insensitively, is classified as a places query and not a weather
    query; and whatever the text, at least one of the two flags is set. *)
Theorem analyze_intent_default (user_input : str) :
  (no_keyword user_input ->
   wants_weather (analyze_intent user_input) = false
   /\ wants_places (analyze_intent user_input) = true)
  /\ wants_weather (analyze_intent user_input)
     || wants_places (analyze_intent user_input) = true.
Proof.
  split.
  - intros Hno. unfold analyze_intent.
    rewrite !any_keyword_false; [simpl; auto | |];
      intros k Hk; apply Hno; apply in_or_app; auto.
  - unfold analyze_intent.
    destruct (any_keyword weather_keywords (lower user_input));
      destruct (any_keyword places_keywords (lower user_input)); reflexivity.
Qed.

Lemma forall_in_dec {A} (P : A -> Prop) (f : A -> bool) (l : list A) :
  (forall x, f x = true -> P x) -> forallb f l = true -> forall x, In x l -> P x.
Proof.
  intros Hf Hall x Hin. apply Hf.
  rewrite forallb_forall in Hall. now apply Hall.
Qed.

Lemma analyze_intent_default_witness :
  no_keyword (py "I'm going to Bangalore, let's plan my trip")
  /\ wants_weather (analyze_intent (py "I'm going to Bangalore, let's plan my trip")) = false
  /\ wants_places (analyze_intent (py "I'm going to Bangalore, let's plan my trip")) = true.
Proof.
  assert (Hno : no_keyword (py "I'm going to Bangalore, let's plan my trip")).
  { unfold no_keyword.
    apply (forall_in_dec _ (fun k => negb (contains k
             (lower (py "I'm going to Bangalore, let's plan my trip"))))).
    - intros x Hx. now apply negb_true_iff in Hx.
    - vm_compute. reflexivity. }
  split; [exact Hno|].
  exact (proj1 (analyze_intent_default _) Hno).
Defined.

(** ** Location extraction on the example queries *)

(** C2 fails on the code: the patterns do not match (a question mark is no
    terminator), and the scan over the words returns the first capitalized one
    that is no stop word, which is "What's". *)
Theorem extract_location_weather_in_Tokyo :
  extract_location (py "What's the weather in Tokyo?") = Some (py "What's").
Proof. vm_compute. reflexivity. Qed.

Example extract_location_Bangalore :
  extract_location (py "I'm going to Bangalore, let's plan my trip")
  = Some (py "Bangalore").
Proof. vm_compute. reflexivity. Qed.

Example extract_location_Tokyo_plain :
  extract_location (py "weather in Tokyo") = Some (py "Tokyo").
Proof. vm_compute. reflexivity. Qed.

(** ** What a match of a pattern consumes *)


Lemma strip_prefix_some p : forall s s', strip_prefix p s = Some s' -> s = p ++ s'.
Proof.
  induction p as [|a p IH]; intros s s' H; simpl in H.
  - now inversion H.
  - destruct s as [|b s]; [discriminate|].
    destruct (Ascii.eqb_spec a b) as [->|_]; [|discriminate].
    simpl. f_equal. now apply IH.
Qed.

Lemma strip_prefix_app p : forall s, strip_prefix p (p ++ s) = Some s.
Proof.
  induction p as [|a p IH]; intros s; simpl; [reflexivity|].
  now rewrite Ascii.eqb_refl.
Qed.

Lemma plus_loop_sound {T} g p (k : str -> option T) v :
  forall s, plus_loop g p s k = Some v ->
  exists cs s', cs <> [] /\ forallb p cs = true /\ s = cs ++ s' /\ k s' = Some v.
Proof.
  induction s as [|c s IH]; simpl; intros H; [discriminate|].
  destruct (p c) eqn:Hc; [|discriminate].
  assert (Hhere : k s = Some v ->
                  exists cs s', cs <> [] /\ forallb p cs = true
                                /\ c :: s = cs ++ s' /\ k s' = Some v).
  { intros Hk. exists [c], s. simpl. rewrite Hc. repeat split; congruence. }
  assert (Hmore : plus_loop g p s k = Some v ->
                  exists cs s', cs <> [] /\ forallb p cs = true
                                /\ c :: s = cs ++ s' /\ k s' = Some v).
  { intros Hk. destruct (IH Hk) as [cs [s' [_ [Hall [-> Hks]]]]].
    exists (c :: cs), s'. simpl. rewrite Hc, Hall. repeat split; congruence. }
  destruct g.
  - destruct (plus_loop Greedy p s k) eqn:Hrec; auto.
  - destruct (k s) eqn:Hk; auto.
Qed.

Lemma rmatch_sound {T} r :
  forall s cap (k : str -> option str -> option T) v,
    rmatch r s cap k = Some v ->
    exists s' cap', consumes r s s' /\ k s' cap' = Some v.
Proof.
  induction r as [l|p|a IHa b IHb|a IHa b IHb|g p|a IHa|];
    intros s cap k v H; simpl in H.
  - destruct (strip_prefix l s) as [s'|] eqn:Hp; [|discriminate].
    exists s', cap. split; [|exact H]. simpl. now apply strip_prefix_some.
  - destruct s as [|c s']; [discriminate|].
    destruct (p c) eqn:Hc; [|discriminate].
    exists s', cap. split; [|exact H]. simpl. eauto.
  - destruct (rmatch a s cap k) eqn:Ha.
    + inversion H; subst. destruct (IHa _ _ _ _ Ha) as [s' [cap' [Hs Hk]]].
      exists s', cap'. simpl. auto.
    + destruct (IHb _ _ _ _ H) as [s' [cap' [Hs Hk]]].
      exists s', cap'. simpl. auto.
  - destruct (IHa _ _ _ _ H) as [m [capm [Hm Hb]]].
    destruct (IHb _ _ _ _ Hb) as [s' [cap' [Hs Hk]]].
    exists s', cap'. simpl. eauto.
  - destruct (plus_loop_sound _ _ _ _ _ H) as [cs [s' [Hne [Hall [Hs Hk]]]]].
    exists s', cap. simpl. eauto.
  - destruct (IHa _ _ _ _ H) as [s' [cap' [Hs Hk]]].
    eexists s', _. split; [exact Hs | exact Hk].
  - destruct s as [|c [|c' s'']].
    + exists [], cap. split; [reflexivity | exact H].
    + destruct (Ascii.eqb c "010"); [|discriminate].
      exists [c], cap. split; [reflexivity | exact H].
    + discriminate.
Qed.

Lemma consumes_suffix r : forall s s', consumes r s s' -> exists pre, s = pre ++ s'.
Proof.
  induction r as [l|p|a IHa b IHb|a IHa b IHb|g p|a IHa|]; intros s s' H; simpl in H.
  - now exists l.
  - destruct H as [c [-> _]]. now exists [c].
  - destruct H; eauto.
  - destruct H as [m [Ha Hb]].
    destruct (IHa _ _ Ha) as [pre1 ->]. destruct (IHb _ _ Hb) as [pre2 ->].
    exists (pre1 ++ pre2). now rewrite app_assoc.
  - destruct H as [cs [_ [_ ->]]]. now exists cs.
  - eauto.
  - subst. now exists [].
Qed.

Lemma search_sound r g :
  forall s, search r s = Some g ->
  exists skipped rest, s = skipped ++ rest /\ match_here r rest = Some g.
Proof.
  induction s as [|c s IH]; simpl; intros H.
  - destruct (match_here r []) eqn:Hm; [|discriminate].
    exists [], []. split; [reflexivity|congruence].
  - destruct (match_here r (c :: s)) eqn:Hm.
    + exists [], (c :: s). split; [reflexivity|congruence].
    + destruct (IH H) as [skipped [rest [-> Hrest]]].
      now exists (c :: skipped), rest.
Qed.

(** A match of either pattern goes through a whitespace character followed
    by a letter of A..Z. *)
Lemma phrase_pattern_shape phrases s g :
  match_here (phrase_pattern phrases) s = Some g ->
  exists pre ws c post,
    s = pre ++ ws :: c :: post /\ isspace ws = true /\ upper_AZ c = true.
Proof.
  unfold match_here. intros H.
  destruct (rmatch_sound _ _ _ _ _ H) as [s' [cap' [Hc _]]].
  unfold phrase_pattern, place_group in Hc. simpl in Hc.
  destruct Hc as [m1 [Hph [m2 [[cs [Hne [Hall ->]]] [m3 [[m4 [[c [-> Hup]] _]] _]]]]]].
  destruct (consumes_suffix _ _ _ Hph) as [pre ->].
  destruct (exists_last Hne) as [cs' [ws ->]].
  rewrite forallb_app in Hall. apply andb_true_iff in Hall.
  destruct Hall as [_ Hws]. simpl in Hws. rewrite andb_true_r in Hws.
  exists (pre ++ cs'), ws, c, m4. repeat split; auto.
  now rewrite <- !app_assoc.
Qed.

(** ** Tokens of [split] *)

Lemma split_from_head :
  forall s cur, cur <> [] ->
  exists rest tail, split_from cur s = (rev cur ++ rest) :: tail.
Proof.
  induction s as [|c s IH]; intros cur Hcur; simpl.
  - destruct cur; [contradiction|]. exists [], []. now rewrite app_nil_r.
  - destruct (isspace c).
    + destruct cur; [contradiction|].
      exists [], (split_from [] s). now rewrite app_nil_r.
    + destruct (IH (c :: cur)) as [rest [tail Heq]]; [discriminate|].
      exists (c :: rest), tail. rewrite Heq. simpl. now rewrite <- app_assoc.
Qed.

(** A character that is no whitespace and follows a whitespace character is
    the first character of a token. *)
Lemma split_from_token ws c post :
  isspace ws = true -> isspace c = false ->
  forall pre cur,
  exists word rest, In word (split_from cur (pre ++ ws :: c :: post))
                    /\ word = c :: rest.
Proof.
  intros Hws Hc. induction pre as [|x pre IH]; intros cur; simpl.
  - rewrite Hws, Hc.
    destruct (split_from_head post [c]) as [rest [tail Heq]]; [discriminate|].
    exists (c :: rest), rest. split; [|reflexivity].
    destruct cur; rewrite Heq; simpl; auto.
  - destruct (isspace x).
    + destruct (IH []) as [word [rest [Hin Hw]]].
      exists word, rest. split; [|exact Hw].
      destruct cur; simpl; auto.
    + apply IH.
Qed.

Lemma upper_AZ_isupper c : upper_AZ c = true -> isupper c = true.
Proof. unfold isupper, upper_AZ. intros ->. reflexivity. Qed.

Lemma upper_AZ_not_space c : upper_AZ c = true -> isspace c = false.
Proof.
  unfold upper_AZ, isspace, in_range. intros H.
  apply andb_true_iff in H. destruct H as [H1 H2].
  apply N.leb_le in H1. apply N.leb_le in H2.
  repeat rewrite orb_false_iff. repeat split; apply andb_false_iff.
  - right. apply N.leb_gt. lia.
  - right. apply N.leb_gt. lia.
  - left. apply N.leb_gt. lia.
  - left. apply N.leb_gt. lia.
Qed.


Lemma search_phrase_none phrases user_input :
  no_capitalized_token user_input ->
  search (phrase_pattern phrases) user_input = None.
Proof.
  intros Hno. destruct (search _ user_input) as [g|] eqn:Hs; [|reflexivity].
  exfalso.
  destruct (search_sound _ _ _ Hs) as [skipped [rest [-> Hm]]].
  destruct (phrase_pattern_shape _ _ _ Hm) as [pre [ws [c [post [-> [Hws Hup]]]]]].
  destruct (split_from_token ws c post Hws (upper_AZ_not_space _ Hup)
              (skipped ++ pre) []) as [word [tl [Hin ->]]].
  rewrite <- app_assoc in Hin.
  specialize (Hno _ Hin). simpl in Hno.
  rewrite (upper_AZ_isupper _ Hup) in Hno. discriminate.
Qed.

Lemma scan_words_none words :
  (forall word, In word words -> starts_upper word = false) ->
  scan_words words = None.
Proof.
  induction words as [|word rest IH]; intros H; simpl; [reflexivity|].
  rewrite (H word (or_introl eq_refl)). simpl.
  apply IH. intros w Hw. apply H. now right.
Qed.

(** C5: when no token of the text (no maximal run of non-whitespace) starts
    with an uppercase letter, [extract_location] returns [None]. *)
Theorem extract_location_no_capital (user_input : str) :
  no_capitalized_token user_input -> extract_location user_input = None.
Proof.
  intros Hno. unfold extract_location.
  destruct (List.length (strip user_input) <? 5); [reflexivity|].
  unfold patterns, try_patterns.
  rewrite !search_phrase_none by exact Hno.
  now apply scan_words_none.
Qed.

Lemma extract_location_no_capital_witness :
  no_capitalized_token (py "what is the weather in tokyo?")
  /\ extract_location (py "what is the weather in tokyo?") = None.
Proof.
  assert (Hno : no_capitalized_token (py "what is the weather in tokyo?")).
  { unfold no_capitalized_token.
    apply (forall_in_dec _ (fun word => negb (starts_upper word))).
    - intros x Hx. now apply negb_true_iff in Hx.
    - vm_compute. reflexivity. }
  split; [exact Hno|].
  exact (extract_location_no_capital _ Hno).
Defined.

Lemma try_patterns_length ps user_input place :
  try_patterns ps user_input = Some place -> 2 < List.length place.
Proof.
  induction ps as [|pattern ps IH]; cbn [try_patterns]; [discriminate|].
  destruct (search pattern user_input) as [g|]; [|exact IH].
  destruct (2 <? List.length (strip g)) eqn:Hlen; [|exact IH].
  intros H. inversion H; subst. now apply Nat.ltb_lt.
Qed.

Lemma scan_words_length words place :
  scan_words words = Some place -> 2 < List.length place.
Proof.
  induction words as [|word rest IH]; cbn [scan_words]; [discriminate|].
  destruct (starts_upper word && negb (str_in (lower word) stopwords)); [|exact IH].
  destruct (2 <? List.length (join (py " ") (word :: upper_run rest))) eqn:Hlen;
    [|exact IH].
  intros H. inversion H; subst. now apply Nat.ltb_lt.
Qed.

(** What [extract_location] returns is longer than two characters. *)
Lemma extract_location_length user_input place :
  extract_location user_input = Some place -> 2 < List.length place.
Proof.
  unfold extract_location.
  destruct (List.length (strip user_input) <? 5); [discriminate|].
  destruct (try_patterns patterns user_input) as [l|] eqn:Hp.
  - intros H. inversion H; subst. exact (try_patterns_length _ _ _ Hp).
  - apply scan_words_length.
Qed.

Lemma contains_app needle : forall pre post, contains needle (pre ++ needle ++ post) = true.
Proof.
  induction pre as [|c pre IH]; intros post.
  - simpl. destruct (needle ++ post) eqn:Heq.
    + simpl. rewrite <- Heq, strip_prefix_app. reflexivity.
    + simpl. rewrite <- Heq, strip_prefix_app. reflexivity.
  - simpl. destruct (strip_prefix needle (c :: pre ++ needle ++ post)); auto.
Qed.

(** ** The orchestrator *)

Section AgentFacts.

Variable number : Type.
Variable num_truthy : number -> bool.
Variable py_float : json number -> Py number.
Variable title : str -> str.




(** C9: a result with [success = false] carries neither weather nor places. *)
Theorem process_query_failure_no_data (w : World number) (user_input : str)
        (r : QueryResult number) :
  process_query num_truthy py_float title w user_input = Ret r ->
  success r = false ->
  weather r = None /\ places r = None.
Proof.
  unfold process_query.
  assert (Hfail : forall loc err (r0 : QueryResult number),
             Ret {| success := false; location := loc; weather := None;
                    places := None; error := err |} = Ret r0 ->
             weather r0 = None /\ places r0 = None).
  { intros loc err r0 H. inversion H; subst. auto. }
  destruct (extract_location user_input) as [[|c place]|]; try (intros H _; eapply Hfail; exact H).
  destruct (get_coordinates _ _ _ _) as [[coords|]|]; simpl;
    [| intros H _; eapply Hfail; exact H | discriminate].
  intros H Hs. exfalso. revert H Hs.
  unfold weather_step, places_step.
  destruct (wants_weather _); simpl;
    [destruct (get_weather _ _ _) as [[| ]|]; simpl |];
    try discriminate;
    (destruct (wants_places _); simpl;
     [destruct (get_tourist_attractions _ _ _ _ _ _ _) as [[| |]|]; simpl |]);
    try discriminate;
    intros H Hs; inversion H; subst; simpl in Hs; discriminate.
Qed.


(** The resolver returns [None] when the geocoding call fails and when it
    answers with zero matches. *)
Lemma get_coordinates_not_found (w : World number) (place_name : str) :
  (exists e, make_api_request GET (nominatim w place_name) default_max_retries
             = Failure e)
  \/ make_api_request GET (nominatim w place_name) default_max_retries
     = Success (JList []) ->
  get_coordinates num_truthy py_float w place_name = Ret None.
Proof.
  unfold get_coordinates. intros [[e ->]| ->]; reflexivity.
Qed.

(** C3: when a location is extracted and the resolver returns [None], the
    result has [success = false], keeps the location, carries no data, and
    its error message contains the location. *)
Theorem process_query_unknown_place (w : World number) (user_input place : str) :
  extract_location user_input = Some place ->
  get_coordinates num_truthy py_float w place = Ret None ->
  exists r message,
    process_query num_truthy py_float title w user_input = Ret r
    /\ success r = false
    /\ location r = Some place
    /\ weather r = None /\ places r = None
    /\ error r = Some message
    /\ contains place message = true.
Proof.
  intros Hloc Hcoords.
  pose proof (extract_location_length _ _ Hloc) as Hlen.
  unfold process_query. rewrite Hloc.
  destruct place as [|c place]; [simpl in Hlen; lia|].
  rewrite Hcoords. simpl.
  eexists _, _. repeat split.
  unfold unknown_place_error.
  rewrite <- (app_nil_r (c :: place)) at 2.
  apply contains_app.
Qed.


(** ** The weather fetcher *)


(** C7, as the code has it: the four forecast arrays of a successful
    [get_weather] are the upstream's daily arrays as they came (the empty list
    where the upstream gives none), neither truncated nor aligned; so they
    have one length [n] whenever the upstream's four arrays have. *)
Theorem get_weather_forecast_arrays (w : World number) (latitude longitude : number)
        (cur : Current number) (fc : Forecast number) (tz : json number) :
  get_weather w latitude longitude = Ret (WeatherOk cur fc tz) ->
  exists data daily,
    make_api_request GET (open_meteo w latitude longitude)
                     default_max_retries = Success (JObj data)
    /\ tag_get data "daily" (JObj []) = JObj daily
    /\ dates fc = daily_array daily "time"
    /\ max_temps fc = daily_array daily "temperature_2m_max"
    /\ min_temps fc = daily_array daily "temperature_2m_min"
    /\ precipitation_probability fc
       = daily_array daily "precipitation_probability_max"
    /\ forall n,
         array_len (daily_array daily "time") = Some n ->
         array_len (daily_array daily "temperature_2m_max") = Some n ->
         array_len (daily_array daily "temperature_2m_min") = Some n ->
         array_len (daily_array daily "precipitation_probability_max") = Some n ->
         forecast_aligned n fc.
Proof.
  unfold get_weather, parse_weather.
  destruct (make_api_request _ _ _) as [data|e]; [|discriminate].
  destruct data as [| | | |l|data]; try discriminate. cbn [as_dict bind].
  destruct (tag_get data "current" _) as [| | | |l|current];
    try discriminate. cbn [as_dict bind].
  destruct (tag_get data "daily" _) as [| | | |l|daily] eqn:Hdaily;
    try discriminate. cbn [as_dict bind].
  intros H. inversion H; subst; clear H.
  exists data, daily. cbn [dates max_temps min_temps precipitation_probability].
  repeat split; auto.
Qed.

(** ** The attraction finder *)

Lemma In_firstn {A} (x : A) n l : In x (firstn n l) -> In x l.
Proof.
  intros H. rewrite <- (firstn_skipn n l). apply in_or_app. now left.
Qed.

Lemma In_slice_to {A} (x : A) stop l : In x (slice_to stop l) -> In x l.
Proof. unfold slice_to. destruct (0 <=? stop)%Z; apply In_firstn. Qed.



(** What the loop body keeps of a raw record. *)
Lemma parse_element_kept element a :
  parse_element num_truthy title element = Ret (Some a) ->
  exists items tags,
    element = JObj items
    /\ tag_get items "tags" (JObj []) = JObj tags
    /\ truthy num_truthy (name_tag tags) || truthy num_truthy (description_tag tags) = true
    /\ description a = description_tag tags
    /\ (truthy num_truthy (name_tag tags) = true -> name a = name_tag tags)
    /\ (truthy num_truthy (name_tag tags) = false ->
        exists s, attraction_type num_truthy tags = JStr s
                  /\ name a = JStr (title (replace_underscore s))).
Proof.
  unfold parse_element.
  destruct element as [| | | |l|items]; try discriminate. cbn [as_dict bind].
  destruct (tag_get items "tags" _) as [| | | |l|tags] eqn:Htags;
    try discriminate. cbn [as_dict bind].
  fold (name_tag tags). fold (description_tag tags).
  set (position := match dict_get (py "center") items with
                   | Some center => _
                   | None => _
                   end).
  destruct (truthy num_truthy (name_tag tags)) eqn:Hname; cbn [negb andb].
  - destruct position as [position|]; cbn [bind]; [|discriminate].
    intros H. inversion H; subst; clear H.
    exists items, tags. cbn [name description]. rewrite Hname.
    repeat split; auto. discriminate.
  - destruct (truthy num_truthy (description_tag tags)) eqn:Hdesc; cbn [negb andb];
      [|discriminate].
    destruct position as [position|]; cbn [bind]; [|discriminate].
    destruct (attraction_type num_truthy tags) as [| | |s| |] eqn:Htype;
      cbn [bind]; try discriminate.
    intros H. inversion H; subst; clear H.
    exists items, tags. cbn [name description]. rewrite Hname, Hdesc.
    repeat split; auto; [discriminate|]. intros _. now exists s.
Qed.

Lemma parse_element_str c a : parse_element num_truthy title (JStr c) <> Ret (Some a).
Proof. discriminate. Qed.

(** Every record the loop returns was there before or was kept of one of the
    elements. *)
Lemma collect_from limit :
  forall elements acc res,
    collect num_truthy title limit elements acc = Ret res ->
    forall a, In a res ->
      In a acc \/ exists element, In element elements
                                  /\ parse_element num_truthy title element = Ret (Some a).
Proof.
  induction elements as [|element rest IH]; intros acc res; cbn [collect].
  - intros H a Ha. inversion H; subst. now left.
  - destruct (parse_element num_truthy title element) as [[a0|]|] eqn:Hparse; cbn [bind];
      [| |discriminate].
    + destruct (limit <=? _)%Z.
      * intros H a Ha. inversion H; subst.
        apply in_app_or in Ha. destruct Ha as [Ha|[<-|[]]]; [now left|].
        right. exists element. split; [now left|exact Hparse].
      * intros H a Ha. destruct (IH _ _ H a Ha) as [Hin|[e [He Hp]]].
        -- apply in_app_or in Hin. destruct Hin as [Hin|[<-|[]]]; [now left|].
           right. exists element. split; [now left|exact Hparse].
        -- right. exists e. split; [now right|exact Hp].
    + intros H a Ha. destruct (IH _ _ H a Ha) as [Hin|[e [He Hp]]]; [now left|].
      right. exists e. split; [now right|exact Hp].
Qed.


Lemma replace_underscore_nonempty s : s <> [] -> replace_underscore s <> [].
Proof. destruct s; [contradiction|discriminate]. Qed.

(** A kept record never has an empty name together
    with an empty description, and it comes from a raw record with a name tag
    or a description tag; its name is not empty unless the raw record has no
    name and its category (the tourism tag, else the historic tag, else the
    amenity tag) is the empty string. *)
Theorem get_tourist_attractions_named
        (w : World number) (latitude longitude : number) (radius limit : Z)
        (attractions : list (Attraction number)) (count : nat) :
  (forall s, s <> [] -> title s <> []) ->
  get_tourist_attractions num_truthy title w latitude longitude radius limit
  = Ret (PlacesFound attractions count) ->
  forall a, In a attractions ->
    truthy num_truthy (name a) || truthy num_truthy (description a) = true
    /\ exists data elements items tags,
         make_api_request POST
           (overpass w latitude longitude radius limit) default_max_retries
         = Success (JObj data)
         /\ tag_get data "elements" (JList []) = JList elements
         /\ In (JObj items) elements
         /\ tag_get items "tags" (JObj []) = JObj tags
         /\ truthy num_truthy (name_tag tags) || truthy num_truthy (description_tag tags) = true
         /\ (truthy num_truthy (name a) = true
             \/ (truthy num_truthy (name_tag tags) = false
                 /\ attraction_type num_truthy tags = JStr [])).
Proof.
  intros Htitle.
  unfold get_tourist_attractions, parse_attractions.
  destruct (make_api_request _ _ _) as [data|e]; [|discriminate].
  destruct data as [| | | |l|data]; try discriminate. cbn [as_dict bind].
  destruct (negb (truthy num_truthy (tag_get data "elements" _))); [discriminate|].
  destruct (tag_get data "elements" _) as [| | |chars|elements|]eqn:Helements;
    try discriminate; cbn [iter_slice bind];
    (destruct (collect num_truthy title limit _ []) as [kept|] eqn:Hcollect;
     cbn [bind]; [|discriminate]);
    intros H a Ha; inversion H; subst; clear H;
    (destruct (collect_from _ _ _ _ Hcollect a Ha) as [[]|[element [Hin Hparse]]]).
  - apply in_map_iff in Hin. destruct Hin as [c [<- _]].
    now apply parse_element_str in Hparse.
  - apply In_slice_to in Hin.
    destruct (parse_element_kept _ _ Hparse)
      as [items [tags [-> [Htags [Hkept [Hdesc [Hnamed Hsynth]]]]]]].
    assert (Hname : truthy num_truthy (name a) = true
                    \/ (truthy num_truthy (name_tag tags) = false
                        /\ attraction_type num_truthy tags = JStr [])).
    { destruct (truthy num_truthy (name_tag tags)) eqn:Hn.
      - left. now rewrite (Hnamed eq_refl).
      - destruct (Hsynth eq_refl) as [s [Htype Hnm]].
        destruct s as [|c s]; [now right|]. left. rewrite Hnm. cbn [truthy].
        destruct (title (replace_underscore (c :: s))) eqn:Ht; [|reflexivity].
        exfalso. apply (Htitle (replace_underscore (c :: s))); [discriminate|exact Ht]. }
    split.
    + destruct Hname as [->|[Hn _]]; [reflexivity|].
      rewrite Hdesc. rewrite Hn in Hkept. simpl in Hkept. rewrite Hkept.
      apply orb_true_r.
    + exists data, elements, items, tags. auto 10.
Qed.


End AgentFacts.

(** ** Concrete runs *)

Lemma ascii_title_nonempty s : s <> [] -> ascii_title s <> [].
Proof. destruct s; [contradiction|discriminate]. Qed.

Example run_places_down :
  exists r,
    run_query places_down "trip to Paris, weather and places" = Ret r
    /\ success r = true
    /\ location r = Some (py "Paris")
    /\ weather r <> None
    /\ places r = None
    /\ error r = Some (py "HTTP error occurred: 504").
Proof. eexists. split; [vm_compute; reflexivity|]. repeat split. discriminate. Qed.


Lemma process_query_unknown_place_witness :
  exists r message,
    run_query no_match "trip to Nowhereistan" = Ret r
    /\ success r = false
    /\ location r = Some (py "Nowhereistan")
    /\ error r = Some message
    /\ contains (py "Nowhereistan") message = true.
Proof.
  edestruct (process_query_unknown_place Z whole_truthy whole_float ascii_title
               no_match (py "trip to Nowhereistan") (py "Nowhereistan"))
    as [r [message [Hrun [Hsuccess [Hloc [_ [_ [Herror Hin]]]]]]]].
  - vm_compute. reflexivity.
  - vm_compute. reflexivity.
  - exists r, message. auto.
Defined.

Lemma process_query_failure_no_data_witness :
  exists r,
    run_query no_match "trip to Nowhereistan" = Ret r
    /\ success r = false
    /\ weather r = None /\ places r = None.
Proof.
  eexists. split; [vm_compute; reflexivity|]. split; [reflexivity|].
  eapply (process_query_failure_no_data Z whole_truthy whole_float ascii_title
            no_match (py "trip to Nowhereistan")).
  - vm_compute. reflexivity.
  - reflexivity.
Defined.

(** C7 fails as the specification words it: when the upstream gives the
    dates only, the snapshot has three dates and no temperature. *)
Lemma get_weather_not_aligned :
  exists cur fc tz,
    get_weather short_forecast 48%Z 2%Z = Ret (WeatherOk cur fc tz)
    /\ array_len (dates fc) = Some 3
    /\ array_len (max_temps fc) = Some 0
    /\ ~ exists n, forecast_aligned n fc.
Proof.
  eexists _, _, _. split; [vm_compute; reflexivity|].
  split; [reflexivity|]. split; [reflexivity|].
  intros [n [Hdates [Hmax _]]]. simpl in Hdates, Hmax. congruence.
Qed.

Lemma get_weather_forecast_arrays_witness :
  exists cur fc tz,
    get_weather all_up 48%Z 2%Z = Ret (WeatherOk cur fc tz)
    /\ forecast_aligned 3 fc.
Proof.
  eexists _, _, _. split; [vm_compute; reflexivity|].
  edestruct (get_weather_forecast_arrays Z all_up 48%Z 2%Z)
    as [data [daily [Hreq [Hdaily [_ [_ [_ [_ Haligned]]]]]]]].
  - vm_compute. reflexivity.
  - vm_compute in Hreq. inversion Hreq; subst data; clear Hreq.
    vm_compute in Hdaily. inversion Hdaily; subst daily; clear Hdaily.
    apply Haligned; reflexivity.
Defined.

(** C6 fails on the code: a record with a description, no name and an empty
    amenity tag is kept under the empty name, the fallback to "attraction"
    being taken only when the amenity key is absent. *)
Lemma get_tourist_attractions_empty_name :
  exists a,
    run_places odd_record 5 = Ret (PlacesFound [a] 1)
    /\ name a = JStr []
    /\ truthy whole_truthy (name a) = false.
Proof. eexists. split; [vm_compute; reflexivity|]. split; reflexivity. Qed.

Lemma get_tourist_attractions_named_witness :
  exists attractions count a,
    run_places all_up 5 = Ret (PlacesFound attractions count)
    /\ In a attractions
    /\ truthy whole_truthy (name a) || truthy whole_truthy (description a) = true.
Proof.
  eexists _, _, _. split; [vm_compute; reflexivity|].
  split; [left; reflexivity|].
  eapply proj1.
  eapply (get_tourist_attractions_named Z whole_truthy ascii_title all_up
            48%Z 2%Z default_radius 5%Z _ _ ascii_title_nonempty).
  - vm_compute. reflexivity.
  - left. reflexivity.
Defined.


(** * Further properties *)

(** ** Intent analysis *)

Lemma contains_iff needle :
  forall hay, contains needle hay = true <-> exists pre post, hay = pre ++ needle ++ post.
Proof.
  intros hay. split.
  - induction hay as [|c hay IH]; simpl.
    + destruct (strip_prefix needle []) as [s'|] eqn:Hp; [|discriminate].
      intros _. exists [], s'. simpl. now apply strip_prefix_some.
    + destruct (strip_prefix needle (c :: hay)) as [s'|] eqn:Hp.
      * intros _. exists [], s'. simpl. now apply strip_prefix_some.
      * intros H. destruct (IH H) as [pre [post ->]]. now exists (c :: pre), post.
  - intros [pre [post ->]]. apply contains_app.
Qed.

Lemma any_keyword_occurs keywords text :
  any_keyword keywords text = true <-> occurs keywords text.
Proof.
  unfold any_keyword, occurs. rewrite existsb_exists. split.
  - intros [keyword [Hin Hc]]. apply contains_iff in Hc.
    destruct Hc as [pre [post ->]]. now exists keyword, pre, post.
  - intros [keyword [pre [post [Hin ->]]]]. exists keyword.
    split; [exact Hin | apply contains_app].
Qed.

(** The weather flag is set exactly when a weather keyword occurs in the
    lowered text; the places flag is set exactly when a places keyword occurs
    there or no weather keyword does. *)
Theorem analyze_intent_flags (user_input : str) :
  (wants_weather (analyze_intent user_input) = true
   <-> occurs weather_keywords (lower user_input))
  /\ (wants_places (analyze_intent user_input) = true
      <-> occurs places_keywords (lower user_input)
          \/ ~ occurs weather_keywords (lower user_input)).
Proof.
  unfold analyze_intent.
  rewrite <- !any_keyword_occurs.
  destruct (any_keyword weather_keywords (lower user_input));
    destruct (any_keyword places_keywords (lower user_input)); simpl;
    intuition congruence.
Qed.

Lemma lower_char_idempotent c : lower_char (lower_char c) = lower_char c.
Proof. destruct c as [[] [] [] [] [] [] [] []]; reflexivity. Qed.

Lemma lower_idempotent s : lower (lower s) = lower s.
Proof.
  unfold lower. rewrite map_map. apply map_ext. exact lower_char_idempotent.
Qed.

(** The analysis does not depend on the case of the text: lowering the text
    first changes nothing. *)
Theorem analyze_intent_case_insensitive (user_input : str) :
  analyze_intent (lower user_input) = analyze_intent user_input.
Proof. unfold analyze_intent. now rewrite lower_idempotent. Qed.

(** ** The transport client *)

Section TransportFacts.

Variable number : Type.
Variable method : http_method.
Variable send : nat -> http_outcome number.
Variable max_retries : nat.

Hypothesis method_supported : supported method.

Lemma request_loop_step attempt remaining :
  request_loop method send max_retries attempt (S remaining)
  = if transient (send attempt) && (attempt <? max_retries - 1)
    then request_loop method send max_retries (S attempt) remaining
    else outcome_response (send attempt).
Proof.
  destruct method_supported as [-> | ->]; simpl;
    destruct (send attempt); simpl; try reflexivity;
    destruct (attempt <? max_retries - 1); reflexivity.
Qed.

Lemma request_loop_decisive i :
  i < max_retries ->
  (forall j, j < i -> transient (send j) = true) ->
  transient (send i) = false ->
  forall distance attempt,
    attempt + distance = i ->
    request_loop method send max_retries attempt (max_retries - attempt)
    = outcome_response (send i).
Proof.
  intros Hi Hbefore Hat.
  induction distance as [|distance IH]; intros attempt Hsum.
  - replace attempt with i by lia.
    replace (max_retries - i) with (S (max_retries - S i)) by lia.
    rewrite request_loop_step, Hat. reflexivity.
  - replace (max_retries - attempt) with (S (max_retries - S attempt)) by lia.
    rewrite request_loop_step, (Hbefore attempt) by lia.
    replace (attempt <? max_retries - 1) with true
      by (symmetry; apply Nat.ltb_lt; lia).
    simpl. apply IH. lia.
Qed.

(** Timeouts and connection failures are retried, and the first attempt that
    ends otherwise decides: its answer or its error is returned, and no later
    attempt is made.  So an HTTP error status is never retried. *)
Theorem make_api_request_decisive (i : nat) :
  i < max_retries ->
  (forall j, j < i -> transient (send j) = true) ->
  transient (send i) = false ->
  make_api_request method send max_retries = outcome_response (send i).
Proof.
  intros Hi Hbefore Hat. unfold make_api_request.
  rewrite <- (Nat.sub_0_r max_retries) at 2.
  apply (request_loop_decisive i Hi Hbefore Hat i 0). reflexivity.
Qed.

Lemma request_loop_exhausted :
  (forall j, j < max_retries -> transient (send j) = true) ->
  forall remaining attempt,
    attempt + S remaining = max_retries ->
    request_loop method send max_retries attempt (S remaining)
    = outcome_response (send (max_retries - 1)).
Proof.
  intros Hall. induction remaining as [|remaining IH]; intros attempt Hsum;
    rewrite request_loop_step, (Hall attempt) by lia.
  - replace (attempt <? max_retries - 1) with false
      by (symmetry; apply Nat.ltb_ge; lia).
    simpl. f_equal. f_equal. lia.
  - replace (attempt <? max_retries - 1) with true
      by (symmetry; apply Nat.ltb_lt; lia).
    simpl. apply IH. lia.
Qed.

(** When every one of the [max_retries] attempts times out or fails to
    connect, the error returned is that of the last attempt. *)
Theorem make_api_request_exhausted :
  0 < max_retries ->
  (forall j, j < max_retries -> transient (send j) = true) ->
  make_api_request method send max_retries
  = outcome_response (send (max_retries - 1)).
Proof.
  intros Hpos Hall. unfold make_api_request.
  destruct max_retries as [|n] eqn:Hmax; [lia|].
  rewrite <- Hmax in *. rewrite Hmax at 2.
  apply request_loop_exhausted; [exact Hall | lia].
Qed.

End TransportFacts.

Lemma request_loop_agree {number} method (send send' : nat -> http_outcome number)
      max_retries :
  forall remaining attempt,
    (forall j, attempt <= j < attempt + remaining -> send j = send' j) ->
    request_loop method send max_retries attempt remaining
    = request_loop method send' max_retries attempt remaining.
Proof.
  induction remaining as [|remaining IH]; intros attempt Hagree; simpl;
    [reflexivity|].
  rewrite <- (Hagree attempt) by lia.
  rewrite (IH (S attempt)) by (intros j Hj; apply Hagree; lia).
  reflexivity.
Qed.

(** The client makes at most [max_retries] attempts: what the upstream would
    do at a later attempt has no influence on the result. *)
Theorem make_api_request_attempts {number} method
        (send send' : nat -> http_outcome number) (max_retries : nat) :
  (forall j, j < max_retries -> send j = send' j) ->
  make_api_request method send max_retries
  = make_api_request method send' max_retries.
Proof.
  intros Hagree. unfold make_api_request.
  apply request_loop_agree. intros j Hj. apply Hagree. lia.
Qed.

Lemma request_loop_runs_out {number} method (send : nat -> http_outcome number)
      max_retries :
  forall remaining attempt,
    attempt + S remaining = max_retries ->
    request_loop method send max_retries attempt (S remaining)
    <> Failure (py "Maximum retry attempts reached").
Proof.
  induction remaining as [|remaining IH]; intros attempt Hsum; simpl;
    (destruct method; try discriminate);
    (destruct (send attempt); try discriminate);
    (destruct (Nat.ltb_spec attempt (max_retries - 1)) as [Hlt|Hge];
     try discriminate); try lia; apply IH; lia.
Qed.

(** With a count of attempts that is a natural number, the message of the
    statement after the loop is returned exactly when the count is zero. *)
Lemma make_api_request_runs_out {number} method
        (send : nat -> http_outcome number) (max_retries : nat) :
  make_api_request method send max_retries
  = Failure (py "Maximum retry attempts reached")
  <-> max_retries = 0.
Proof.
  unfold make_api_request. split.
  - destruct max_retries as [|n]; [reflexivity|].
    intros H. exfalso. revert H. apply request_loop_runs_out. reflexivity.
  - intros ->. reflexivity.
Qed.

(** ** The weather fetcher, beyond the forecast arrays *)

Section FetcherFacts.

Variable number : Type.
Variable num_truthy : number -> bool.
Variable py_float : json number -> Py number.
Variable title : str -> str.

(** [get_weather] answers with a failure exactly when the transport client
    does, and with the same message. *)
Theorem get_weather_failure_iff (w : World number) (latitude longitude : number)
        (e : str) :
  get_weather w latitude longitude = Ret (WeatherErr e)
  <-> make_api_request GET (open_meteo w latitude longitude) default_max_retries
      = Failure e.
Proof.
  unfold get_weather, parse_weather.
  destruct (make_api_request _ _ _) as [data|e'].
  - split; [|discriminate].
    destruct (as_dict data) as [items|]; cbn [bind]; [|discriminate].
    destruct (as_dict (tag_get items "current" _)); cbn [bind]; [|discriminate].
    destruct (as_dict (tag_get items "daily" _)); cbn [bind]; discriminate.
  - split; intros H; inversion H; reflexivity.
Qed.

(** [get_weather] raises, and then it is [AttributeError], exactly when the
    upstream answers with a body that is no object, or whose [current] or
    [daily] entry is no object: a text body, a list, or a null entry. *)
Theorem get_weather_raises_iff (w : World number) (latitude longitude : number)
        (x : exn) :
  get_weather w latitude longitude = Raise x
  <-> x = AttributeError
      /\ exists data,
           make_api_request GET (open_meteo w latitude longitude)
                            default_max_retries = Success data
           /\ ~ weather_body data.
Proof.
  unfold get_weather, parse_weather.
  destruct (make_api_request _ _ _) as [data|e'].
  - assert (Hbody : forall items current daily,
               data = JObj items ->
               tag_get items "current" (JObj []) = JObj current ->
               tag_get items "daily" (JObj []) = JObj daily ->
               weather_body data).
    { intros items current daily H1 H2 H3. now exists items, current, daily. }
    assert (Hno : forall P : Prop,
               (weather_body data -> False) ->
               Raise (A := weather_result number) AttributeError = Raise x
               <-> x = AttributeError
                   /\ exists data', Success data = Success data' /\ ~ weather_body data').
    { intros P Hnot. split.
      - intros H. inversion H. split; [reflexivity|]. now exists data.
      - intros [-> _]. reflexivity. }
    destruct data as [| | | |l|items]; cbn [as_dict bind];
      try (apply (Hno True); intros [i [c [d [H _]]]]; discriminate).
    destruct (tag_get items "current" (JObj [])) as [| | | |l|current] eqn:Hc;
      cbn [as_dict bind];
      try (apply (Hno True); intros [i [c [d [H [H2 _]]]]];
           inversion H; subst; congruence).
    destruct (tag_get items "daily" (JObj [])) as [| | | |l|daily] eqn:Hd;
      cbn [as_dict bind];
      try (apply (Hno True); intros [i [c [d [H [_ H3]]]]];
           inversion H; subst; congruence).
    split; [discriminate|].
    intros [_ [data' [Heq Hnot]]]. inversion Heq; subst.
    exfalso. apply Hnot. now apply (Hbody items current daily).
  - split; [discriminate|]. intros [_ [data [H _]]]. discriminate.
Qed.

End FetcherFacts.

(** ** The resolver *)

Section ResolverFacts.

Variable number : Type.
Variable num_truthy : number -> bool.
Variable py_float : json number -> Py number.

(** The resolver returns coordinates exactly when the geocoder answers with a
    list whose first match is an object with [lat] and [lon] entries that
    [float] accepts; the matches after the first play no part. *)
Theorem get_coordinates_found_iff (w : World number) (place_name : str)
        (coords : Coords number) :
  get_coordinates num_truthy py_float w place_name = Ret (Some coords)
  <-> exists items rest lat_text lon_text,
        make_api_request GET (nominatim w place_name) default_max_retries
        = Success (JList (JObj items :: rest))
        /\ dict_get (py "lat") items = Some lat_text
        /\ dict_get (py "lon") items = Some lon_text
        /\ py_float lat_text = Ret (lat coords)
        /\ py_float lon_text = Ret (lon coords).
Proof.
  unfold get_coordinates, parse_coordinates.
  destruct (make_api_request _ _ _) as [data|e].
  - split.
    + destruct (truthy num_truthy data) eqn:Htruthy; cbn [negb]; [|discriminate].
      destruct data as [|b|n|s|l|items]; cbn [py_len bind]; try discriminate.
      * destruct s as [|c s]; [discriminate|]. cbn. discriminate.
      * destruct l as [|first rest]; [discriminate|]. cbn [List.length Nat.ltb Nat.leb first_item bind].
        destruct first as [| | | |l|items]; cbn [subscript bind]; try discriminate.
        destruct (dict_get (py "lat") items) as [lat_text|] eqn:Hlat;
          cbn [bind]; [|discriminate].
        destruct (py_float lat_text) as [lat_value|] eqn:Hflat;
          cbn [bind]; [|discriminate].
        destruct (dict_get (py "lon") items) as [lon_text|] eqn:Hlon;
          cbn [bind]; [|discriminate].
        destruct (py_float lon_text) as [lon_value|] eqn:Hflon;
          cbn [bind]; [|discriminate].
        intros H. inversion H; subst; clear H.
        exists items, rest, lat_text, lon_text. auto.
      * destruct items as [|item items]; [discriminate|]. cbn. discriminate.
    + intros [items [rest [lat_text [lon_text [Heq [Hlat [Hlon [Hflat Hflon]]]]]]]].
      inversion Heq; subst; clear Heq.
      cbn [truthy negb py_len List.length Nat.ltb Nat.leb first_item subscript bind].
      rewrite Hlat. cbn [bind]. rewrite Hflat. cbn [bind].
      rewrite Hlon. cbn [bind]. rewrite Hflon. cbn [bind].
      destruct coords; reflexivity.
  - split; [discriminate|].
    intros [items [rest [lat_text [lon_text [Heq _]]]]]. discriminate.
Qed.

(** The resolver returns [None] exactly when the geocoding call fails or its
    answer is falsy (an empty list, but also null, an empty text, an empty
    object, zero or false); it never returns [None] for an answer it has
    measured, so the last [return None] of the source is never reached. *)
Theorem get_coordinates_none_iff (w : World number) (place_name : str) :
  get_coordinates num_truthy py_float w place_name = Ret None
  <-> (exists e, make_api_request GET (nominatim w place_name) default_max_retries
                 = Failure e)
      \/ (exists data,
            make_api_request GET (nominatim w place_name) default_max_retries
            = Success data
            /\ truthy num_truthy data = false).
Proof.
  unfold get_coordinates, parse_coordinates.
  destruct (make_api_request _ _ _) as [data|e].
  - destruct (truthy num_truthy data) eqn:Htruthy; cbn [negb].
    + split.
      * destruct data as [|b|n|s|l|items]; cbn [py_len bind]; try discriminate.
        -- destruct s as [|c s]; [discriminate|]. cbn. discriminate.
        -- destruct l as [|first rest]; [discriminate|].
           cbn [List.length Nat.ltb Nat.leb first_item bind].
           destruct (subscript first "lat") as [lat_text|]; cbn [bind]; [|discriminate].
           destruct (py_float lat_text); cbn [bind]; [|discriminate].
           destruct (subscript first "lon") as [lon_text|]; cbn [bind]; [|discriminate].
           destruct (py_float lon_text); cbn [bind]; discriminate.
        -- destruct items as [|item items]; [discriminate|]. cbn. discriminate.
      * intros [[e H]|[data' [H Hfalse]]]; [discriminate|].
        inversion H; subst. congruence.
    + split; [|reflexivity]. intros _. right. now exists data.
  - split; [|reflexivity]. intros _. left. now exists e.
Qed.

End ResolverFacts.

(** ** The attraction finder, beyond the names and the count *)

Section FinderFacts.

Variable number : Type.
Variable num_truthy : number -> bool.
Variable title : str -> str.

Lemma collect_first_kept limit :
  forall elements acc res,
    (Z.of_nat (List.length acc) < limit)%Z ->
    collect num_truthy title limit elements acc = Ret res ->
    res = firstn (Z.to_nat limit) (acc ++ kept_records num_truthy title elements).
Proof.
  induction elements as [|element rest IH]; intros acc res Hacc; cbn [collect].
  - intros H. inversion H; subst. cbn. rewrite app_nil_r.
    symmetry. apply firstn_all2. lia.
  - unfold kept_records. cbn [flat_map]. fold (kept_records num_truthy title rest).
    destruct (parse_element num_truthy title element) as [[a0|]|];
      cbn [bind]; [| |discriminate].
    + destruct (Z.leb_spec limit (Z.of_nat (List.length (acc ++ [a0])))) as [Hle|Hlt].
      * intros H. inversion H; subst. cbn [app].
        replace (acc ++ a0 :: kept_records num_truthy title rest)
          with ((acc ++ [a0]) ++ kept_records num_truthy title rest)
          by (now rewrite <- app_assoc).
        rewrite length_app in *. cbn [List.length] in *.
        replace (Z.to_nat limit) with (List.length (acc ++ [a0]) + 0)
          by (rewrite length_app; cbn [List.length]; lia).
        rewrite firstn_app_2. cbn. now rewrite app_nil_r.
      * intros H. rewrite (IH _ _ Hlt H). cbn [app].
        now rewrite <- app_assoc.
    + cbn [app]. now apply IH.
Qed.

(** With a limit that is not negative, the attractions are the first [limit]
    records kept of the first [2 * limit] upstream elements, in the order of
    the upstream: below the limit nothing that can be kept is left out. *)
Theorem get_tourist_attractions_first_kept
        (w : World number) (latitude longitude : number) (radius limit : Z)
        (attractions : list (Attraction number)) (count : nat) :
  (0 <= limit)%Z ->
  get_tourist_attractions num_truthy title w latitude longitude radius limit
  = Ret (PlacesFound attractions count) ->
  exists data candidates,
    make_api_request POST (overpass w latitude longitude radius limit)
                     default_max_retries = Success (JObj data)
    /\ iter_slice (tag_get data "elements" (JList [])) (limit * 2) = Ret candidates
    /\ attractions
       = firstn (Z.to_nat limit) (kept_records num_truthy title candidates).
Proof.
  intros Hlimit. unfold get_tourist_attractions, parse_attractions.
  destruct (make_api_request _ _ _) as [data|e]; [|discriminate].
  destruct data as [| | | |l|data]; try discriminate. cbn [as_dict bind].
  destruct (negb (truthy num_truthy (tag_get data "elements" _))); [discriminate|].
  destruct (iter_slice _ _) as [candidates|] eqn:Hslice; cbn [bind]; [|discriminate].
  destruct (collect num_truthy title limit candidates []) as [kept|] eqn:Hcollect;
    cbn [bind]; [|discriminate].
  intros H. inversion H; subst; clear H.
  exists data, candidates. split; [reflexivity|]. split; [exact Hslice|].
  destruct (Z.eq_dec limit 0) as [->|Hpos].
  - assert (candidates = []) as ->.
    { destruct (tag_get data "elements" _); try discriminate;
        simpl in Hslice; inversion Hslice; reflexivity. }
    simpl in Hcollect. inversion Hcollect. reflexivity.
  - apply (collect_first_kept limit candidates []); [simpl; lia | exact Hcollect].
Qed.

(** [get_tourist_attractions] answers with a failure exactly when the
    transport client does, with the same message; and it answers with the
    empty success ("No tourist attractions found in this area", without a
    count) exactly when the body is an object whose [elements] entry is
    missing or falsy. *)
Theorem get_tourist_attractions_failure_empty_iff
        (w : World number) (latitude longitude : number) (radius limit : Z) :
  (forall e,
     get_tourist_attractions num_truthy title w latitude longitude radius limit
     = Ret (PlacesErr e)
     <-> make_api_request POST (overpass w latitude longitude radius limit)
                          default_max_retries = Failure e)
  /\ (forall message,
        get_tourist_attractions num_truthy title w latitude longitude radius limit
        = Ret (PlacesEmpty message)
        <-> message = py "No tourist attractions found in this area"
            /\ exists data,
                 make_api_request POST (overpass w latitude longitude radius limit)
                                  default_max_retries = Success (JObj data)
                 /\ truthy num_truthy (tag_get data "elements" (JList [])) = false).
Proof.
  unfold get_tourist_attractions, parse_attractions.
  destruct (make_api_request _ _ _) as [data|e'].
  - destruct data as [| | | |l|data]; cbn [as_dict bind];
      try (split; [intros e; split; discriminate
                  | intros m; split; [discriminate
                                     | intros [_ [d [H _]]]; discriminate]]).
    destruct (truthy num_truthy (tag_get data "elements" _)) eqn:Htruthy;
      cbn [negb].
    + assert (Hret : forall r : places_result number,
                 (candidates <- iter_slice (tag_get data "elements" (JList []))
                                           (limit * 2) ;;
                  attractions <- collect num_truthy title limit candidates [] ;;
                  Ret (PlacesFound attractions (List.length attractions))) = Ret r ->
                 exists a c, r = PlacesFound a c).
      { intros r. destruct (iter_slice _ _); cbn [bind]; [|discriminate].
        destruct (collect _ _ _ _ _); cbn [bind]; [|discriminate].
        intros H. inversion H. eauto. }
      split.
      * intros e. split; [|discriminate].
        intros H. destruct (Hret _ H) as [a [c Hr]]. discriminate.
      * intros m. split.
        -- intros H. destruct (Hret _ H) as [a [c Hr]]. discriminate.
        -- intros [_ [d [H Hfalse]]]. inversion H; subst. congruence.
    + split.
      * intros e. split; discriminate.
      * intros m. split.
        -- intros H. inversion H. split; [reflexivity|]. now exists data.
        -- intros [-> _]. reflexivity.
  - split.
    + intros e. split; intros H; inversion H; reflexivity.
    + intros m. split; [discriminate|]. intros [_ [d [H _]]]. discriminate.
Qed.

End FinderFacts.

(** ** The orchestrator, beyond the claims *)

(** Case analysis along [process_query] once the coordinates are known: the
    intent flags, then what each requested fetch gives. *)
Ltac fetch_cases :=
  unfold weather_step, places_step;
  destruct (wants_weather _) eqn:?Hweather; cbn [bind];
  [ destruct (get_weather _ _ _) as [[? ? ?|?]|?] eqn:?Hget; cbn [bind] | ];
  try discriminate;
  (destruct (wants_places _) eqn:?Hplaces; cbn [bind];
   [ destruct (get_tourist_attractions _ _ _ _ _ _ _) as [[?|?|? ?]|?] eqn:?Hfind;
     cbn [bind] | ]);
  try discriminate.

Section OrchestratorFacts.

Variable number : Type.
Variable num_truthy : number -> bool.
Variable py_float : json number -> Py number.
Variable title : str -> str.

Lemma extract_location_not_empty user_input : extract_location user_input <> Some [].
Proof.
  intros H. apply extract_location_length in H. simpl in H. lia.
Qed.

(** Whatever result is returned, its location is what [extract_location]
    found in the text. *)
Theorem process_query_location (w : World number) (user_input : str)
        (r : QueryResult number) :
  process_query num_truthy py_float title w user_input = Ret r ->
  location r = extract_location user_input.
Proof.
  unfold process_query.
  destruct (extract_location user_input) as [[|c place]|] eqn:Hloc;
    [exfalso; exact (extract_location_not_empty _ Hloc)| |].
  - destruct (get_coordinates _ _ _ _) as [[coords|]|]; cbn [bind];
      [| intros H; inversion H; reflexivity | discriminate].
    fetch_cases; intros H; inversion H; reflexivity.
  - intros H. inversion H. reflexivity.
Qed.

(** A returned result has [success = true] exactly when a location was
    extracted and resolved to coordinates: what the fetches do afterwards
    does not change the flag. *)
Theorem process_query_success_iff (w : World number) (user_input : str)
        (r : QueryResult number) :
  process_query num_truthy py_float title w user_input = Ret r ->
  (success r = true
   <-> exists place coords,
         extract_location user_input = Some place
         /\ get_coordinates num_truthy py_float w place = Ret (Some coords)).
Proof.
  unfold process_query.
  destruct (extract_location user_input) as [[|c place]|] eqn:Hloc;
    [exfalso; exact (extract_location_not_empty _ Hloc)| |].
  - destruct (get_coordinates _ _ _ _) as [[coords|]|] eqn:Hcoords; cbn [bind];
      [| | discriminate].
    + assert (Hyes : exists place0 coords0,
                 Some (c :: place) = Some place0
                 /\ get_coordinates num_truthy py_float w place0 = Ret (Some coords0))
        by (now exists (c :: place), coords).
      fetch_cases; intros H; inversion H; cbn [success]; tauto.
    + intros H. inversion H. cbn [success]. split; [discriminate|].
      intros [place0 [coords0 [Heq Hget]]]. inversion Heq; subst. congruence.
  - intros H. inversion H. cbn [success]. split; [discriminate|].
    intros [place0 [coords0 [Heq _]]]. discriminate.
Qed.

(** A returned result carries weather only when the text asks for weather and
    places only when it asks for places; a failure always carries a message;
    and a result without an error message is a success that carries everything
    the text asks for. *)
Theorem process_query_answer (w : World number) (user_input : str)
        (r : QueryResult number) :
  process_query num_truthy py_float title w user_input = Ret r ->
  (weather r <> None -> wants_weather (analyze_intent user_input) = true)
  /\ (places r <> None -> wants_places (analyze_intent user_input) = true)
  /\ (success r = false -> exists e, error r = Some e /\ e <> [])
  /\ (error r = None ->
      success r = true
      /\ (wants_weather (analyze_intent user_input) = true -> weather r <> None)
      /\ (wants_places (analyze_intent user_input) = true -> places r <> None)).
Proof.
  unfold process_query.
  assert (Hfail : forall loc e (r0 : QueryResult number),
             e <> [] ->
             Ret {| success := false; location := loc; weather := None;
                    places := None; error := Some e |} = Ret r0 ->
             (weather r0 <> None -> wants_weather (analyze_intent user_input) = true)
             /\ (places r0 <> None -> wants_places (analyze_intent user_input) = true)
             /\ (success r0 = false -> exists e, error r0 = Some e /\ e <> [])
             /\ (error r0 = None ->
                 success r0 = true
                 /\ (wants_weather (analyze_intent user_input) = true -> weather r0 <> None)
                 /\ (wants_places (analyze_intent user_input) = true -> places r0 <> None))).
  { intros loc e r0 He H. inversion H; subst. cbn.
    repeat split; try congruence. now exists e. }
  destruct (extract_location user_input) as [[|c place]|];
    try (apply Hfail; discriminate).
  destruct (get_coordinates _ _ _ _) as [[coords|]|]; cbn [bind];
    [| apply Hfail; discriminate | discriminate].
  fetch_cases; intros H; inversion H; subst; clear H;
    cbn [success weather places error];
    repeat split; try congruence; try discriminate;
    try (destruct e; discriminate).
Qed.

(** [process_query] raises exactly when a location was extracted and the
    resolver raises, or the weather fetch that the text asks for raises, or,
    the weather step being over, the places fetch that the text asks for
    raises; it catches nothing and raises nothing of its own. *)
Theorem process_query_raises_iff (w : World number) (user_input : str) (x : exn) :
  process_query num_truthy py_float title w user_input = Raise x
  <-> exists place,
        extract_location user_input = Some place
        /\ (get_coordinates num_truthy py_float w place = Raise x
            \/ exists coords,
                 get_coordinates num_truthy py_float w place = Ret (Some coords)
                 /\ ((wants_weather (analyze_intent user_input) = true
                      /\ get_weather w (lat coords) (lon coords) = Raise x)
                     \/ ((wants_weather (analyze_intent user_input) = false
                          \/ exists wr, get_weather w (lat coords) (lon coords) = Ret wr)
                         /\ wants_places (analyze_intent user_input) = true
                         /\ get_tourist_attractions num_truthy title w
                              (lat coords) (lon coords) default_radius default_limit
                            = Raise x))).
Proof.
  unfold process_query.
  destruct (extract_location user_input) as [[|c place]|] eqn:Hloc;
    [exfalso; exact (extract_location_not_empty _ Hloc)| |].
  - destruct (get_coordinates _ _ _ _) as [[coords|]|e] eqn:Hcoords; cbn [bind].
    + assert (Hback : forall y : Py (QueryResult number),
                 (get_weather w (lat coords) (lon coords) = Raise x ->
                  wants_weather (analyze_intent user_input) = true -> y = Raise x) ->
                 (get_tourist_attractions num_truthy title w (lat coords) (lon coords)
                    default_radius default_limit = Raise x ->
                  wants_places (analyze_intent user_input) = true ->
                  wants_weather (analyze_intent user_input) = false
                  \/ (exists wr, get_weather w (lat coords) (lon coords) = Ret wr) ->
                  y = Raise x) ->
                 (exists place0,
                    Some (c :: place) = Some place0
                    /\ (get_coordinates num_truthy py_float w place0 = Raise x
                        \/ exists coords0,
                             get_coordinates num_truthy py_float w place0
                             = Ret (Some coords0)
                             /\ ((wants_weather (analyze_intent user_input) = true
                                  /\ get_weather w (lat coords0) (lon coords0) = Raise x)
                                 \/ ((wants_weather (analyze_intent user_input) = false
                                      \/ exists wr,
                                           get_weather w (lat coords0) (lon coords0)
                                           = Ret wr)
                                     /\ wants_places (analyze_intent user_input) = true
                                     /\ get_tourist_attractions num_truthy title w
                                          (lat coords0) (lon coords0)
                                          default_radius default_limit = Raise x)))) ->
                 y = Raise x).
      { intros y Hw Hp [place0 [Heq [Hr|[coords0 [Hc Hcase]]]]];
          inversion Heq; subst; [congruence|].
        rewrite Hcoords in Hc. inversion Hc; subst.
        destruct Hcase as [[Hw1 Hw2]|[Hw1 [Hp1 Hp2]]]; auto. }
      assert (Hfwd_w : wants_weather (analyze_intent user_input) = true ->
                       get_weather w (lat coords) (lon coords) = Raise x ->
                       exists place0,
                         Some (c :: place) = Some place0
                         /\ (get_coordinates num_truthy py_float w place0 = Raise x
                             \/ exists coords0,
                                  get_coordinates num_truthy py_float w place0
                                  = Ret (Some coords0)
                                  /\ ((wants_weather (analyze_intent user_input) = true
                                       /\ get_weather w (lat coords0) (lon coords0)
                                          = Raise x)
                                      \/ ((wants_weather (analyze_intent user_input) = false
                                           \/ exists wr,
                                                get_weather w (lat coords0) (lon coords0)
                                                = Ret wr)
                                          /\ wants_places (analyze_intent user_input) = true
                                          /\ get_tourist_attractions num_truthy title w
                                               (lat coords0) (lon coords0)
                                               default_radius default_limit = Raise x)))).
      { intros Hw Hx. exists (c :: place). split; [reflexivity|]. right.
        exists coords. split; [exact Hcoords|]. left. now split. }
      assert (Hfwd_p : wants_weather (analyze_intent user_input) = false
                       \/ (exists wr, get_weather w (lat coords) (lon coords) = Ret wr) ->
                       wants_places (analyze_intent user_input) = true ->
                       get_tourist_attractions num_truthy title w (lat coords) (lon coords)
                         default_radius default_limit = Raise x ->
                       exists place0,
                         Some (c :: place) = Some place0
                         /\ (get_coordinates num_truthy py_float w place0 = Raise x
                             \/ exists coords0,
                                  get_coordinates num_truthy py_float w place0
                                  = Ret (Some coords0)
                                  /\ ((wants_weather (analyze_intent user_input) = true
                                       /\ get_weather w (lat coords0) (lon coords0)
                                          = Raise x)
                                      \/ ((wants_weather (analyze_intent user_input) = false
                                           \/ exists wr,
                                                get_weather w (lat coords0) (lon coords0)
                                                = Ret wr)
                                          /\ wants_places (analyze_intent user_input) = true
                                          /\ get_tourist_attractions num_truthy title w
                                               (lat coords0) (lon coords0)
                                               default_radius default_limit = Raise x)))).
      { intros Hw Hp Hx. exists (c :: place). split; [reflexivity|]. right.
        exists coords. split; [exact Hcoords|]. right. auto. }
      unfold weather_step, places_step.
      destruct (wants_weather (analyze_intent user_input)) eqn:Hweather; cbn [bind].
      * destruct (get_weather w (lat coords) (lon coords)) as [wr|e] eqn:Hget;
          cbn [bind].
        -- assert (Hstep : wants_weather (analyze_intent user_input) = false
                           \/ exists wr0, get_weather w (lat coords) (lon coords) = Ret wr0)
             by (right; rewrite Hget; now exists wr).
           try rewrite Hget in Hback; try rewrite Hget in Hfwd_w;
             try rewrite Hget in Hfwd_p.
           destruct wr as [cur fc tz|we];
             (destruct (wants_places (analyze_intent user_input)) eqn:Hplaces;
              cbn [bind];
              [ destruct (get_tourist_attractions num_truthy title w (lat coords)
                            (lon coords) default_radius default_limit)
                  as [[pe|pm|pa pc]|e'] eqn:Hfind; cbn [bind] | ]);
             (split;
              [ try discriminate; intros H; inversion H; subst; apply Hfwd_p; eauto
              | apply Hback; intros; congruence ]).
        -- split.
           ++ intros H. inversion H; subst. now apply Hfwd_w.
           ++ apply Hback; [intros He _; inversion He; reflexivity|].
              intros _ _ [Hf|[wr Hf]]; congruence.
      * destruct (wants_places (analyze_intent user_input)) eqn:Hplaces; cbn [bind];
          [ destruct (get_tourist_attractions num_truthy title w (lat coords)
                        (lon coords) default_radius default_limit)
              as [[pe|pm|pa pc]|e'] eqn:Hfind; cbn [bind] | ];
          (split;
           [ try discriminate; intros H; inversion H; subst; apply Hfwd_p; eauto
           | apply Hback; intros; congruence ]).
    + split; [discriminate|].
      intros [place0 [Heq [Hr|[coords0 [Hc _]]]]];
        inversion Heq; subst; congruence.
    + split.
      * intros H. inversion H; subst. exists (c :: place). auto.
      * intros [place0 [Heq [Hr|[coords0 [Hc _]]]]];
          inversion Heq; subst; congruence.
  - split; [discriminate|]. intros [place0 [Heq _]]. discriminate.
Qed.

End OrchestratorFacts.

Section OrchestratorUpstream.

Variable number : Type.
Variable num_truthy : number -> bool.
Variable py_float : json number -> Py number.
Variable title : str -> str.

Lemma make_api_request_agree method (send send' : nat -> http_outcome number)
      max_retries :
  (forall attempt, send attempt = send' attempt) ->
  make_api_request method send max_retries
  = make_api_request method send' max_retries.
Proof.
  intros H. unfold make_api_request. apply request_loop_agree. intros j _. apply H.
Qed.

(** The forecast service is consulted only for a text that asks for weather
    and the spatial service only for a text that asks for places: two worlds
    that differ in a service the text does not ask for give the same outcome. *)
Theorem process_query_consults (w w' : World number) (user_input : str) :
  (forall place attempt, nominatim w place attempt = nominatim w' place attempt) ->
  (wants_weather (analyze_intent user_input) = true ->
   forall latitude longitude attempt,
     open_meteo w latitude longitude attempt
     = open_meteo w' latitude longitude attempt) ->
  (wants_places (analyze_intent user_input) = true ->
   forall latitude longitude radius limit attempt,
     overpass w latitude longitude radius limit attempt
     = overpass w' latitude longitude radius limit attempt) ->
  process_query num_truthy py_float title w user_input
  = process_query num_truthy py_float title w' user_input.
Proof.
  intros Hgeo Hforecast Hspatial. unfold process_query.
  destruct (extract_location user_input) as [[|c place]|]; try reflexivity.
  assert (Hcoords : get_coordinates num_truthy py_float w (c :: place)
                    = get_coordinates num_truthy py_float w' (c :: place)).
  { unfold get_coordinates. f_equal. apply make_api_request_agree.
    intros attempt. apply Hgeo. }
  rewrite Hcoords.
  destruct (get_coordinates num_truthy py_float w' (c :: place)) as [[coords|]|];
    cbn [bind]; try reflexivity.
  assert (Hw : forall results,
             wants_weather (analyze_intent user_input) = true ->
             weather_step w coords results = weather_step w' coords results).
  { intros results Hwanted. unfold weather_step, get_weather.
    rewrite (make_api_request_agree GET (open_meteo w (lat coords) (lon coords))
               (open_meteo w' (lat coords) (lon coords)));
      [reflexivity | intros attempt; now apply Hforecast]. }
  assert (Hp : forall results,
             wants_places (analyze_intent user_input) = true ->
             places_step num_truthy title w coords results
             = places_step num_truthy title w' coords results).
  { intros results Hwanted. unfold places_step, get_tourist_attractions.
    rewrite (make_api_request_agree POST
               (overpass w (lat coords) (lon coords) default_radius default_limit)
               (overpass w' (lat coords) (lon coords) default_radius default_limit));
      [reflexivity | intros attempt; now apply Hspatial]. }
  destruct (wants_weather (analyze_intent user_input)).
  - rewrite Hw by reflexivity.
    destruct (weather_step w' coords _) as [results|]; cbn [bind]; [|reflexivity].
    destruct (wants_places (analyze_intent user_input)); [|reflexivity].
    now apply Hp.
  - cbn [bind].
    destruct (wants_places (analyze_intent user_input)); [|reflexivity].
    now apply Hp.
Qed.

(** When the geocoder answers the first attempt with a success status and a
    body that is not JSON and not empty, [process_query] raises [TypeError]
    for every text in which it finds a location: the transport client hands
    the text on as data, and the resolver indexes it like a match. *)
Theorem process_query_text_answer_raises (w : World number)
        (user_input place : str) (c : ascii) (text : str) :
  extract_location user_input = Some place ->
  nominatim w place 0 = BodyText (c :: text) ->
  process_query num_truthy py_float title w user_input = Raise TypeError.
Proof.
  intros Hloc Hanswer.
  pose proof (extract_location_length _ _ Hloc) as Hlen.
  unfold process_query. rewrite Hloc.
  destruct place as [|p place]; [simpl in Hlen; lia|].
  unfold get_coordinates, make_api_request, default_max_retries.
  cbn [request_loop]. rewrite Hanswer. reflexivity.
Qed.

End OrchestratorUpstream.

(** ** Location extraction, beyond the claims *)

Lemma rmatch_captures {T} r :
  forall s cap (k : str -> option str -> option T) v,
    rmatch r s cap k = Some v ->
    exists s' cap', captures r s cap s' cap' /\ k s' cap' = Some v.
Proof.
  induction r as [l|p|a IHa b IHb|a IHa b IHb|g p|a IHa|];
    intros s cap k v H; simpl in H.
  - destruct (strip_prefix l s) as [s'|] eqn:Hp; [|discriminate].
    exists s', cap. split; [|exact H]. simpl. split; [|reflexivity].
    now apply strip_prefix_some.
  - destruct s as [|c s']; [discriminate|].
    destruct (p c) eqn:Hc; [|discriminate].
    exists s', cap. split; [|exact H]. simpl. eauto.
  - destruct (rmatch a s cap k) eqn:Ha.
    + inversion H; subst. destruct (IHa _ _ _ _ Ha) as [s' [cap' [Hs Hk]]].
      exists s', cap'. simpl. auto.
    + destruct (IHb _ _ _ _ H) as [s' [cap' [Hs Hk]]].
      exists s', cap'. simpl. auto.
  - destruct (IHa _ _ _ _ H) as [m [capm [Hm Hb]]].
    destruct (IHb _ _ _ _ Hb) as [s' [cap' [Hs Hk]]].
    exists s', cap'. simpl. eauto.
  - destruct (plus_loop_sound _ _ _ _ _ H) as [cs [s' [Hne [Hall [Hs Hk]]]]].
    exists s', cap. simpl. eauto 6.
  - destruct (IHa _ _ _ _ H) as [s' [cap' [Hs Hk]]].
    eexists s', _. split; [|exact Hk]. simpl. eauto.
  - destruct s as [|c [|c' s'']].
    + exists [], cap. split; [now split | exact H].
    + destruct (Ascii.eqb c "010"); [|discriminate].
      exists [c], cap. split; [now split | exact H].
    + discriminate.
Qed.

Lemma captures_no_group r :
  has_group r = false ->
  forall s cap s' cap', captures r s cap s' cap' -> cap' = cap.
Proof.
  induction r as [l|p|a IHa b IHb|a IHa b IHb|g p|a IHa|]; simpl; intros Hg s cap s' cap' H;
    try (apply orb_false_iff in Hg; destruct Hg as [Hga Hgb]).
  - tauto.
  - tauto.
  - destruct H; eauto.
  - destruct H as [m [capm [Ha Hb]]].
    rewrite (IHb Hgb _ _ _ _ Hb). eauto.
  - tauto.
  - discriminate.
  - tauto.
Qed.

(** The text that group 1 of either pattern takes starts with a letter of
    A..Z. *)
Lemma phrase_pattern_group phrases s g :
  match_here (phrase_pattern phrases) s = Some g ->
  exists c cs, g = c :: cs /\ upper_AZ c = true.
Proof.
  unfold match_here. intros H.
  destruct (rmatch_captures _ _ _ _ _ H) as [s' [cap' [Hc Hk]]].
  subst cap'. unfold phrase_pattern in Hc. cbn [captures] in Hc.
  destruct Hc as [m1 [cap1 [_ [m2 [cap2 [_ [m3 [cap3 [Hgroup Hterm]]]]]]]]].
  apply (captures_no_group terminator eq_refl) in Hterm. subst cap3.
  unfold place_group in Hgroup. cbn [captures] in Hgroup.
  destruct Hgroup as [[cap0 [m4 [cap4 [[[c [-> Hup]] _] [[cs [Hne [_ ->]]] _]]]]] Hg].
  assert (Hn : List.length (c :: cs ++ m3) - List.length m3 = S (List.length cs))
    by (cbn [List.length]; rewrite length_app; lia).
  rewrite Hn in Hg. injection Hg as ->.
  exists c, (firstn (List.length cs) (cs ++ m3)). split; [reflexivity | exact Hup].
Qed.

Lemma lstrip_snoc x :
  isspace x = false -> forall a, exists v, lstrip (a ++ [x]) = v ++ [x].
Proof.
  intros Hx. induction a as [|c a IH]; simpl.
  - rewrite Hx. now exists [].
  - destruct (isspace c); [exact IH|]. now exists (c :: a).
Qed.

Lemma lstrip_idempotent s : lstrip (lstrip s) = lstrip s.
Proof.
  induction s as [|c s IH]; simpl; [reflexivity|].
  destruct (isspace c) eqn:Hc; [exact IH|]. simpl. now rewrite Hc.
Qed.

Lemma strip_head c s :
  isspace c = false -> exists t, strip (c :: s) = c :: t.
Proof.
  intros Hc. unfold strip, rstrip. simpl lstrip. rewrite Hc. simpl rev.
  destruct (lstrip_snoc c Hc (rev s)) as [v ->].
  rewrite rev_app_distr. simpl. now exists (rev v).
Qed.

Lemma lstrip_head_nonspace s c u : lstrip s = c :: u -> isspace c = false.
Proof.
  induction s as [|x s IH]; simpl; [discriminate|].
  destruct (isspace x) eqn:Hx; [exact IH|].
  intros H. inversion H; subst. exact Hx.
Qed.

(** [strip] leaves a stripped text as it is. *)
Lemma strip_idempotent s : trimmed (strip s).
Proof.
  unfold trimmed, strip, rstrip.
  set (t := lstrip (rev (lstrip s))).
  assert (Ht : lstrip t = t) by apply lstrip_idempotent.
  assert (Hrev : lstrip (rev t) = rev t).
  { unfold t. destruct (lstrip s) as [|c u] eqn:Hu; [reflexivity|].
    pose proof (lstrip_head_nonspace _ _ _ Hu) as Hc.
    simpl rev. destruct (lstrip_snoc c Hc (rev u)) as [v ->].
    rewrite rev_app_distr. simpl. now rewrite Hc. }
  rewrite Hrev, rev_involutive, Ht. reflexivity.
Qed.

Lemma trimmed_ends x a z b :
  isspace x = false -> isspace z = false ->
  forall s, s = x :: a -> s = b ++ [z] -> trimmed s.
Proof.
  intros Hx Hz s Hhead Hlast. unfold trimmed, strip, rstrip.
  assert (H1 : lstrip s = s) by (rewrite Hhead; simpl; now rewrite Hx).
  assert (H2 : lstrip (rev s) = rev s)
    by (rewrite Hlast, rev_app_distr; simpl; now rewrite Hz).
  now rewrite H1, H2, rev_involutive.
Qed.

Lemma split_from_tokens :
  forall s cur,
    (forall c, In c cur -> isspace c = false) ->
    forall word, In word (split_from cur s) -> cur <> [] \/ True ->
    token word.
Proof.
  assert (Hrev : forall cur, cur <> [] ->
                 (forall c, In c cur -> isspace c = false) -> token (rev cur)).
  { intros cur Hne Hcur. split.
    - intros Hr. apply Hne. apply (f_equal (@rev ascii)) in Hr.
      now rewrite rev_involutive in Hr.
    - intros c Hc. apply Hcur. now apply in_rev. }
  induction s as [|c s IH]; intros cur Hcur word Hin _; simpl in Hin.
  - destruct cur as [|x cur]; [contradiction|].
    destruct Hin as [<-|[]]. apply Hrev; [discriminate|exact Hcur].
  - destruct (isspace c) eqn:Hc.
    + destruct cur as [|x cur].
      * apply (IH [] Hcur word Hin). now right.
      * destruct Hin as [<-|Hin]; [apply Hrev; [discriminate|exact Hcur]|].
        apply (IH [] (fun c0 H0 => match H0 with end) word Hin). now right.
    + apply (IH (c :: cur)); [|exact Hin|now right].
      intros c0 [<-|H0]; [exact Hc | now apply Hcur].
Qed.

Lemma split_tokens s word : In word (split s) -> token word.
Proof.
  intros Hin. apply (split_from_tokens s [] (fun c H => match H with end) word Hin).
  now right.
Qed.

Lemma upper_run_incl words word : In word (upper_run words) -> In word words.
Proof.
  induction words as [|w rest IH]; simpl; [tauto|].
  destruct (starts_upper w); simpl; [|tauto]. intros [<-|H]; auto.
Qed.

Lemma join_tokens_ends :
  forall words,
    words <> [] -> (forall word, In word words -> token word) ->
    exists x a z b,
      join (py " ") words = x :: a /\ join (py " ") words = b ++ [z]
      /\ isspace x = false /\ isspace z = false
      /\ (forall w ws, words = w :: ws -> exists t, w = x :: t).
Proof.
  induction words as [|w rest IH]; intros Hne Htok; [contradiction|].
  destruct (Htok w (or_introl eq_refl)) as [Hw Hchars].
  destruct w as [|x w']; [contradiction|].
  destruct (exists_last Hw) as [b0 [z0 Hsnoc]].
  assert (Hx : isspace x = false) by (apply Hchars; now left).
  assert (Hz0 : isspace z0 = false)
    by (apply Hchars; rewrite Hsnoc; apply in_or_app; right; now left).
  destruct rest as [|w2 rest'].
  - exists x, w', z0, b0. simpl. repeat split; auto.
    intros w0 ws Heq. inversion Heq; subst. now exists w'.
  - destruct IH as [x2 [a2 [z [b [Hhead [Hlast [_ [Hz _]]]]]]]];
      [discriminate | intros word Hin; apply Htok; now right |].
    exists x, (w' ++ py " " ++ join (py " ") (w2 :: rest')), z,
      ((x :: w') ++ py " " ++ b).
    change (join (py " ") ((x :: w') :: w2 :: rest'))
      with ((x :: w') ++ py " " ++ join (py " ") (w2 :: rest')).
    repeat split; auto.
    + rewrite Hlast. now rewrite <- !app_assoc.
    + intros w0 ws Heq. inversion Heq; subst. now exists w'.
Qed.

Lemma scan_words_shape words place :
  (forall word, In word words -> token word) ->
  scan_words words = Some place ->
  starts_upper place = true /\ trimmed place.
Proof.
  induction words as [|word rest IH]; cbn [scan_words]; intros Htok; [discriminate|].
  assert (Hrest : forall w, In w rest -> token w) by (intros w Hw; apply Htok; now right).
  destruct (starts_upper word) eqn:Hup; cbn [andb]; [|now apply IH].
  destruct (negb (str_in (lower word) stopwords)); [|now apply IH].
  destruct (2 <? List.length (join (py " ") (word :: upper_run rest))); [|now apply IH].
  intros H. inversion H; subst; clear H.
  destruct (join_tokens_ends (word :: upper_run rest)) as
    [x [a [z [b [Hhead [Hlast [Hx [Hz Hfirst]]]]]]]]; [discriminate | |].
  { intros w [<-|Hw]; [apply Htok; now left|].
    apply Hrest. now apply upper_run_incl. }
  split.
  - destruct (Hfirst word (upper_run rest) eq_refl) as [t ->].
    exact (eq_trans (f_equal starts_upper Hhead) Hup).
  - exact (trimmed_ends x a z b Hx Hz _ Hhead Hlast).
Qed.

Lemma try_patterns_shape user_input place :
  try_patterns patterns user_input = Some place ->
  starts_upper place = true /\ trimmed place.
Proof.
  assert (Hone : forall phrases g,
             search (phrase_pattern phrases) user_input = Some g ->
             starts_upper (strip g) = true /\ trimmed (strip g)).
  { intros phrases g Hs.
    destruct (search_sound _ _ _ Hs) as [skipped [rest [_ Hm]]].
    destruct (phrase_pattern_group _ _ _ Hm) as [c [cs [-> Hup]]].
    split; [|apply strip_idempotent].
    destruct (strip_head c cs (upper_AZ_not_space _ Hup)) as [t ->].
    simpl. now apply upper_AZ_isupper. }
  assert (Hall : forall ps,
             Forall (fun p => exists phrases, p = phrase_pattern phrases) ps ->
             try_patterns ps user_input = Some place ->
             starts_upper place = true /\ trimmed place).
  { induction ps as [|pattern ps IH]; cbn [try_patterns]; [discriminate|].
    intros Hps. inversion Hps as [|? ? [phrases ->] Hrest]; subst.
    destruct (search (phrase_pattern phrases) user_input) as [g|] eqn:Hs;
      [|now apply IH].
    destruct (2 <? List.length (strip g)); [|now apply IH].
    intros H. inversion H; subst. exact (Hone _ _ Hs). }
  apply Hall. unfold patterns. repeat constructor; eexists; reflexivity.
Qed.

(** A location that [extract_location] returns has more than two characters,
    starts with an uppercase letter and has no whitespace at either end; and
    the text it comes from has at least five characters once stripped. *)
Theorem extract_location_shape (user_input place : str) :
  extract_location user_input = Some place ->
  2 < List.length place
  /\ starts_upper place = true
  /\ trimmed place
  /\ 5 <= List.length (strip user_input).
Proof.
  intros H. split; [exact (extract_location_length _ _ H)|].
  unfold extract_location in H.
  destruct (Nat.ltb_spec (List.length (strip user_input)) 5) as [|Hlen];
    [discriminate|].
  assert (Hshape : starts_upper place = true /\ trimmed place).
  { destruct (try_patterns patterns user_input) as [l|] eqn:Hp.
    - inversion H; subst. exact (try_patterns_shape _ _ Hp).
    - apply (scan_words_shape (split user_input)); [|exact H].
      intros word. apply split_tokens. }
  tauto.
Qed.

Lemma lower_az_not_space c : lower_az c = true -> isspace c = false.
Proof.
  unfold lower_az, isspace, in_range. intros H.
  apply andb_true_iff in H. destruct H as [H1 H2].
  apply N.leb_le in H1. apply N.leb_le in H2.
  repeat rewrite orb_false_iff. repeat split; apply andb_false_iff.
  - right. apply N.leb_gt. lia.
  - right. apply N.leb_gt. lia.
  - left. apply N.leb_gt. lia.
  - left. apply N.leb_gt. lia.
Qed.

(** No terminator starts with a letter of a..z. *)
Lemma terminator_fails {T} x xs cap (k : str -> option str -> option T) :
  lower_az x = true -> rmatch terminator (x :: xs) cap k = None.
Proof.
  intros Hx.
  destruct x as [[] [] [] [] [] [] [] []]; vm_compute in Hx; try discriminate Hx;
    destruct xs; reflexivity.
Qed.

Lemma lazy_run {T} (K : str -> option T) :
  (forall x xs, lower_az x = true -> K (x :: xs) = None) ->
  forall rest,
    rest <> [] -> forallb lower_az rest = true ->
    plus_loop Lazy name_char rest K = K [].
Proof.
  intros HK. induction rest as [|x rest IH]; intros Hne Hall; [contradiction|].
  simpl in Hall. apply andb_true_iff in Hall. destruct Hall as [Hx Hall].
  cbn [plus_loop]. unfold name_char at 1. rewrite Hx. cbn [orb].
  destruct rest as [|y rest].
  - cbn [plus_loop]. destruct (K []); reflexivity.
  - simpl in Hall. apply andb_true_iff in Hall. destruct Hall as [Hy Hall'].
    rewrite (HK y rest Hy). apply IH; [discriminate|].
    simpl. now rewrite Hy, Hall'.
Qed.

Lemma place_then_end c rest :
  upper_AZ c = true -> rest <> [] -> forallb lower_az rest = true ->
  rmatch (Seq place_group terminator) (c :: rest) None (fun _ cap => cap)
  = Some (c :: rest).
Proof.
  intros Hc Hne Hall. unfold place_group. cbn [rmatch]. rewrite Hc.
  rewrite lazy_run; [| intros x xs Hx; apply terminator_fails; exact Hx
                     | exact Hne | exact Hall].
  cbn. now rewrite firstn_all.
Qed.

Lemma search_here r s g : match_here r s = Some g -> search r s = Some g.
Proof. intros H. destruct s; simpl; now rewrite H. Qed.

Lemma match_after_phrase phrase c rest :
  In phrase travel_phrases ->
  upper_AZ c = true -> rest <> [] -> forallb lower_az rest = true ->
  match_here (phrase_pattern
                (alts [lit "going to"; lit "visit"; lit "trip to"] (lit "travel to")))
             (phrase ++ py " " ++ c :: rest)
  = Some (c :: rest).
Proof.
  intros Hin Hc Hne Hall.
  pose proof (place_then_end c rest Hc Hne Hall) as Hend.
  pose proof (upper_AZ_not_space c Hc) as Hsp.
  unfold match_here, phrase_pattern.
  remember (Seq place_group terminator) as tail_pattern eqn:Htail.
  simpl in Hin.
  destruct Hin as [<-|[<-|[<-|[<-|[]]]]]; cbn; rewrite Hsp;
    rewrite ?Hend; reflexivity.
Qed.

Lemma last_lower_az rest :
  rest <> [] -> forallb lower_az rest = true ->
  exists b z, rest = b ++ [z] /\ isspace z = false.
Proof.
  intros Hne Hall. destruct (exists_last Hne) as [b [z ->]].
  exists b, z. split; [reflexivity|].
  rewrite forallb_app in Hall. apply andb_true_iff in Hall.
  destruct Hall as [_ Hz]. simpl in Hz. rewrite andb_true_r in Hz.
  now apply lower_az_not_space.
Qed.

Lemma travel_phrase_head phrase :
  In phrase travel_phrases ->
  exists x a, phrase = x :: a /\ isspace x = false /\ 5 <= List.length phrase.
Proof.
  simpl. intros [<-|[<-|[<-|[<-|[]]]]]; eexists _, _;
    (split; [reflexivity|]); (split; [reflexivity | simpl; lia]).
Qed.

(** After any of the phrases "going to", "visit", "trip to" and "travel to", a
    space, and a word made of a capital letter A..Z followed by at least two
    letters a..z, [extract_location] returns that word. *)
Theorem extract_location_after_phrase (phrase : str) (c : ascii) (rest : str) :
  In phrase travel_phrases ->
  upper_AZ c = true ->
  forallb lower_az rest = true ->
  2 <= List.length rest ->
  extract_location (phrase ++ py " " ++ c :: rest) = Some (c :: rest).
Proof.
  intros Hin Hc Hall Hlen.
  assert (Hne : rest <> []) by (destruct rest; [simpl in Hlen; lia | discriminate]).
  destruct (last_lower_az rest Hne Hall) as [b [z [Hrest Hz]]].
  pose proof (upper_AZ_not_space c Hc) as Hsp.
  assert (Hplace : trimmed (c :: rest)).
  { apply (trimmed_ends c rest z (c :: b) Hsp Hz); [reflexivity|].
    rewrite Hrest. reflexivity. }
  assert (Hinput : trimmed (phrase ++ py " " ++ c :: rest)
                   /\ 5 <= List.length (phrase ++ py " " ++ c :: rest)).
  { destruct (travel_phrase_head phrase Hin) as [x [a [Hphrase [Hx Hfive]]]].
    split; [|rewrite length_app; lia].
    apply (trimmed_ends x (a ++ py " " ++ c :: rest) z
                        (phrase ++ py " " ++ c :: b) Hx Hz).
    - rewrite Hphrase. reflexivity.
    - rewrite Hrest, <- !app_assoc. reflexivity. }
  destruct Hinput as [Hinput Hlong].
  unfold trimmed in Hplace, Hinput.
  unfold extract_location. rewrite Hinput.
  replace (List.length (phrase ++ py " " ++ c :: rest) <? 5) with false
    by (symmetry; apply Nat.ltb_ge; exact Hlong).
  unfold patterns. cbn [try_patterns].
  rewrite (search_here _ _ _ (match_after_phrase phrase c rest Hin Hc Hne Hall)).
  cbv zeta. rewrite Hplace.
  replace (2 <? List.length (c :: rest)) with true
    by (symmetry; apply Nat.ltb_lt; simpl; lia).
  reflexivity.
Qed.

(** ** Concrete runs of the further properties *)

Lemma make_api_request_decisive_witness :
  make_api_request GET slow_upstream 3 = Success three_days.
Proof.
  apply (make_api_request_decisive Z GET slow_upstream 3 (or_introl eq_refl) 2).
  - lia.
  - intros [|[|j]] Hj; [reflexivity | reflexivity | lia].
  - reflexivity.
Defined.

Lemma make_api_request_exhausted_witness :
  make_api_request POST dead_upstream 3
  = Failure (py "Could not connect to the server. Please check your internet connection.").
Proof.
  apply (make_api_request_exhausted Z POST dead_upstream 3 (or_intror eq_refl)).
  - lia.
  - intros [|[|[|j]]] Hj; [reflexivity | reflexivity | reflexivity | lia].
Defined.

Lemma make_api_request_attempts_witness :
  make_api_request GET slow_upstream 3 = make_api_request GET slow_then_refusing 3.
Proof.
  apply (make_api_request_attempts GET slow_upstream slow_then_refusing 3).
  intros [|[|[|j]]] Hj; [reflexivity | reflexivity | reflexivity | lia].
Defined.

Lemma get_tourist_attractions_first_kept_witness :
  exists attractions count,
    run_places all_up 5 = Ret (PlacesFound attractions count)
    /\ exists data candidates,
         make_api_request POST (overpass all_up 48%Z 2%Z default_radius 5%Z)
                          default_max_retries = Success (JObj data)
         /\ iter_slice (tag_get data "elements" (JList [])) (5 * 2) = Ret candidates
         /\ attractions
            = firstn (Z.to_nat 5) (kept_records whole_truthy ascii_title candidates).
Proof.
  eexists _, _. split; [vm_compute; reflexivity|].
  eapply (get_tourist_attractions_first_kept Z whole_truthy ascii_title all_up
            48%Z 2%Z default_radius 5%Z).
  - lia.
  - vm_compute. reflexivity.
Defined.

Lemma process_query_location_witness :
  exists r,
    run_query no_match "trip to Nowhereistan" = Ret r
    /\ location r = extract_location (py "trip to Nowhereistan").
Proof.
  eexists. split; [vm_compute; reflexivity|].
  apply (process_query_location Z whole_truthy whole_float ascii_title no_match).
  vm_compute. reflexivity.
Defined.

Lemma process_query_success_iff_witness :
  exists r,
    run_query places_down "trip to Paris, weather and places" = Ret r
    /\ (success r = true
        <-> exists place coords,
              extract_location (py "trip to Paris, weather and places") = Some place
              /\ get_coordinates whole_truthy whole_float places_down place
                 = Ret (Some coords)).
Proof.
  eexists. split; [vm_compute; reflexivity|].
  apply (process_query_success_iff Z whole_truthy whole_float ascii_title places_down).
  vm_compute. reflexivity.
Defined.

Lemma process_query_answer_witness :
  exists r,
    run_query all_up "trip to Paris, weather and places" = Ret r
    /\ error r = None
    /\ weather r <> None /\ places r <> None.
Proof.
  eexists. split; [vm_compute; reflexivity|]. split; [reflexivity|].
  edestruct (process_query_answer Z whole_truthy whole_float ascii_title all_up
               (py "trip to Paris, weather and places"))
    as [_ [_ [_ Hcomplete]]].
  - vm_compute. reflexivity.
  - destruct (Hcomplete eq_refl) as [_ [Hweather Hplaces]].
    split; [apply Hweather | apply Hplaces]; vm_compute; reflexivity.
Defined.

Lemma process_query_consults_witness :
  run_query all_up "weather in Tokyo" = run_query places_down "weather in Tokyo".
Proof.
  apply (process_query_consults Z whole_truthy whole_float ascii_title
           all_up places_down (py "weather in Tokyo")).
  - reflexivity.
  - reflexivity.
  - intros H. vm_compute in H. discriminate H.
Defined.

Lemma process_query_text_answer_raises_witness :
  run_query behind_portal "trip to Paris" = Raise TypeError.
Proof.
  eapply (process_query_text_answer_raises Z whole_truthy whole_float ascii_title
            behind_portal (py "trip to Paris") (py "Paris")).
  - vm_compute. reflexivity.
  - reflexivity.
Defined.

Lemma extract_location_shape_witness :
  2 < List.length (py "Bangalore")
  /\ starts_upper (py "Bangalore") = true
  /\ trimmed (py "Bangalore")
  /\ 5 <= List.length (strip (py "I'm going to Bangalore, let's plan my trip")).
Proof.
  apply (extract_location_shape (py "I'm going to Bangalore, let's plan my trip")).
  vm_compute. reflexivity.
Defined.

Lemma extract_location_after_phrase_witness :
  extract_location (py "travel to" ++ py " " ++ py "Lisbon") = Some (py "Lisbon").
Proof.
  apply (extract_location_after_phrase (py "travel to") "L"%char (py "isbon")).
  - right. right. right. left. reflexivity.
  - reflexivity.
  - reflexivity.
  - simpl. lia.
Defined.

(** ** Where the claims stop *)



(** The message of the statement after the loop, "Maximum retry attempts
    reached", is returned exactly when [max_retries] is zero or negative, the
    loop body then never running; with a positive [max_retries], such as the
    default of three, it never is. *)
Theorem make_api_request_int_runs_out {number} method
        (send : nat -> http_outcome number) (max_retries : Z) :
  make_api_request_int method send max_retries
  = Failure (py "Maximum retry attempts reached")
  <-> (max_retries <= 0)%Z.
Proof.
  unfold make_api_request_int, make_api_request. split.
  - destruct (Z.to_nat max_retries) as [|n] eqn:Hn; [lia|].
    intros H. exfalso. revert H. apply request_loop_runs_out. reflexivity.
  - intros Hle. replace (Z.to_nat max_retries) with 0 by lia. reflexivity.
Qed.

Example make_api_request_int_negative :
  make_api_request_int GET slow_upstream (-1)
  = Failure (py "Maximum retry attempts reached").
Proof. reflexivity. Qed.
